(** * DeepQResNet: replay buffer, visit-count table and policies of the DQN agent

    A shallow embedding of [src/DeepQResNet.py] (class [DQN]) and the proofs of
    its replay/update/exploration mechanics.  The neural network itself
    ([_build_model], Keras) is an opaque function approximator; the digest
    ([hashlib.md5]), numpy's array printing and numpy's [argmax]/[amax] are
    modelled here because the behaviour of the class depends on them. *)

From Stdlib Require Import ZArith QArith Lia Ascii String DecimalString DecimalZ.
From stdpp Require Import base list gmap strings sorting.


(** ** MD5 (RFC 1321), as computed by [hashlib.md5(...).hexdigest()] *)
Module MD5.
Local Open Scope Z_scope.

Definition add32 (x y : Z) : Z := (x + y) mod 2 ^ 32.

Definition not32 (x : Z) : Z := Z.lxor x 0xffffffff.

Definition rotl32 (x s : Z) : Z :=
  Z.land (Z.lor (Z.shiftl x s) (Z.shiftr x (32 - s))) 0xffffffff.

(** [K[i] = floor(2^32 * |sin(i + 1)|)] *)
Definition K : list Z :=
  [ 0xd76aa478; 0xe8c7b756; 0x242070db; 0xc1bdceee; 0xf57c0faf; 0x4787c62a;
    0xa8304613; 0xfd469501; 0x698098d8; 0x8b44f7af; 0xffff5bb1; 0x895cd7be;
    0x6b901122; 0xfd987193; 0xa679438e; 0x49b40821; 0xf61e2562; 0xc040b340;
    0x265e5a51; 0xe9b6c7aa; 0xd62f105d; 0x02441453; 0xd8a1e681; 0xe7d3fbc8;
    0x21e1cde6; 0xc33707d6; 0xf4d50d87; 0x455a14ed; 0xa9e3e905; 0xfcefa3f8;
    0x676f02d9; 0x8d2a4c8a; 0xfffa3942; 0x8771f681; 0x6d9d6122; 0xfde5380c;
    0xa4beea44; 0x4bdecfa9; 0xf6bb4b60; 0xbebfbc70; 0x289b7ec6; 0xeaa127fa;
    0xd4ef3085; 0x04881d05; 0xd9d4d039; 0xe6db99e5; 0x1fa27cf8; 0xc4ac5665;
    0xf4292244; 0x432aff97; 0xab9423a7; 0xfc93a039; 0x655b59c3; 0x8f0ccc92;
    0xffeff47d; 0x85845dd1; 0x6fa87e4f; 0xfe2ce6e0; 0xa3014314; 0x4e0811a1;
    0xf7537e82; 0xbd3af235; 0x2ad7d2bb; 0xeb86d391 ].

(** per-round left-rotation amounts *)
Definition R : list Z :=
  [ 7; 12; 17; 22; 7; 12; 17; 22; 7; 12; 17; 22; 7; 12; 17; 22;
    5; 9; 14; 20; 5; 9; 14; 20; 5; 9; 14; 20; 5; 9; 14; 20;
    4; 11; 16; 23; 4; 11; 16; 23; 4; 11; 16; 23; 4; 11; 16; 23;
    6; 10; 15; 21; 6; 10; 15; 21; 6; 10; 15; 21; 6; 10; 15; 21 ].

Definition mix (i : nat) (b c d : Z) : Z :=
  if (i <? 16)%nat then Z.lor (Z.land b c) (Z.land (not32 b) d)
  else if (i <? 32)%nat then Z.lor (Z.land d b) (Z.land (not32 d) c)
  else if (i <? 48)%nat then Z.lxor (Z.lxor b c) d
  else Z.lxor c (Z.lor b (not32 d)).

Definition word_index (i : nat) : nat :=
  if (i <? 16)%nat then i
  else if (i <? 32)%nat then (5 * i + 1) mod 16
  else if (i <? 48)%nat then (3 * i + 5) mod 16
  else (7 * i) mod 16.

Definition regs : Type := Z * Z * Z * Z.

Definition step (M : list Z) (st : regs) (i : nat) : regs :=
  let '(a, b, c, d) := st in
  let f := add32 (add32 (add32 (mix i b c d) a) (nth i K 0))
                 (nth (word_index i) M 0) in
  (d, add32 b (rotl32 f (nth i R 0)), b, c).

Definition process_block (st : regs) (M : list Z) : regs :=
  let '(a, b, c, d) := st in
  let '(a', b', c', d') := fold_left (step M) (seq 0 64) st in
  (add32 a a', add32 b b', add32 c c', add32 d d').

(** little-endian bytes of a number *)
Fixpoint le_bytes (n : nat) (x : Z) : list Z :=
  match n with
  | O => []
  | S n' => x mod 256 :: le_bytes n' (x / 256)
  end.

Fixpoint le_words (bs : list Z) : list Z :=
  match bs with
  | b0 :: b1 :: b2 :: b3 :: rest =>
      (b0 + 256 * (b1 + 256 * (b2 + 256 * b3))) :: le_words rest
  | _ => []
  end.

Definition pad (msg : list Z) : list Z :=
  let len := Z.of_nat (length msg) in
  msg ++ [0x80] ++ repeat 0 (Z.to_nat ((55 - len) mod 64))
      ++ le_bytes 8 ((8 * len) mod 2 ^ 64).

Fixpoint blocks (fuel : nat) (ws : list Z) : list (list Z) :=
  match fuel, ws with
  | S fuel', _ :: _ => firstn 16 ws :: blocks fuel' (skipn 16 ws)
  | _, _ => []
  end.

Definition init : regs := (0x67452301, 0xefcdab89, 0x98badcfe, 0x10325476).

Definition digest_regs (msg : list Z) : regs :=
  let ws := le_words (pad msg) in
  fold_left process_block (blocks (length ws) ws) init.

Definition digest (msg : list Z) : list Z :=
  let '(a, b, c, d) := digest_regs msg in
  le_bytes 4 a ++ le_bytes 4 b ++ le_bytes 4 c ++ le_bytes 4 d.

(** the digit of a value below 16, as [hexdigest] prints it *)
Definition hex_digit (n : Z) : ascii :=
  default "f"%char (String.get (Z.to_nat n) "0123456789abcdef").

Fixpoint hex_of_bytes (bs : list Z) : string :=
  match bs with
  | [] => EmptyString
  | b :: bs' =>
      String (hex_digit (b / 16 mod 16))
        (String (hex_digit (b mod 16)) (hex_of_bytes bs'))
  end.

(** [s.encode()]: the text hashed here is ASCII, one byte per character *)
Fixpoint encode (s : string) : list Z :=
  match s with
  | EmptyString => []
  | String c s' => Z.of_N (N_of_ascii c) :: encode s'
  end.

(** [hashlib.md5(s.encode()).hexdigest()] *)
Definition hexdigest (s : string) : string :=
  hex_of_bytes (digest (encode s)).

End MD5.


(** ** Python values and exceptions *)

Inductive exn : Type := IndexError | ValueError.

Inductive result (A : Type) : Type :=
| Ok (a : A)
| Raise (e : exn).
Arguments Ok {A} a.
Arguments Raise {A} e.

Definition rbind {A B} (m : result A) (f : A -> result B) : result B :=
  match m with
  | Ok a => f a
  | Raise e => Raise e
  end.

Notation "'do' x <- m ; k" := (rbind m (fun x => k))
  (at level 10, x name, m at level 100, k at level 200, only parsing).

(** [l[i]] on a Python list or a 1-d array, for an index [0 <= i] *)
Definition getitem {A} (l : list A) (i : nat) : result A :=
  match l !! i with
  | Some x => Ok x
  | None => Raise IndexError
  end.

(** [l[i] = x] *)
Definition setitem {A} (l : list A) (i : nat) (x : A) : result (list A) :=
  if (i <? length l)%nat then Ok (<[i := x]> l) else Raise IndexError.

(** [del l[i]] *)
Definition delitem {A} (l : list A) (i : nat) : result (list A) :=
  if (i <? length l)%nat then Ok (delete i l) else Raise IndexError.

(** [a[idx]] for a list of indices [idx] (numpy integer-array indexing):
    the selected entries, in the order of [idx] *)
Fixpoint take_indices {A} (a : list A) (idx : list nat) : result (list A) :=
  match idx with
  | [] => Ok []
  | i :: idx' =>
      do x <- getitem a i;
      do xs <- take_indices a idx';
      Ok (x :: xs)
  end.

(** [mask[idx] = True] *)
Fixpoint set_true (mask : list bool) (idx : list nat) : result (list bool) :=
  match idx with
  | [] => Ok mask
  | i :: idx' =>
      if (i <? length mask)%nat then set_true (<[i := true]> mask) idx'
      else Raise IndexError
  end.

(** [a[mask]] for a boolean mask of the same length: the entries whose mask
    bit is set, in increasing index order *)
Fixpoint select_mask {A} (a : list A) (mask : list bool) : list A :=
  match a, mask with
  | x :: a', b :: mask' =>
      if b then x :: select_mask a' mask' else select_mask a' mask'
  | _, _ => []
  end.

(** ** Numbers

    The network outputs, rewards, [gamma] and the UCT scores are floating
    point numbers in the program.  The embedding is parametric in the
    numeric type: [of_int] is the conversion of an integer (and the reading
    of a literal such as [100.0]), [vlt] is [<]. *)
Class Arith (val : Type) : Type := {
  of_int : Z -> val;
  vadd : val -> val -> val;
  vmul : val -> val -> val;
  vdiv : val -> val -> val;
  vsqrt : val -> val;
  vlog : val -> val;
  vlt : val -> val -> bool
}.

(** [vlt] is a strict weak order (true of floats that are not NaN) *)
Class ArithOrder (val : Type) `{!Arith val} : Prop := {
  vlt_irrefl : forall x : val, vlt x x = false;
  vlt_trans : forall x y z : val, vlt x y = true -> vlt y z = true -> vlt x z = true;
  vlt_cotrans : forall x y z : val, vlt x y = true -> vlt x z = true \/ vlt z y = true
}.

Section ArrayOps.
Context {val : Type} `{!Arith val}.

(** running maximum: the first of the greatest entries wins *)
Fixpoint argmax_from (best : nat) (bv : val) (i : nat) (l : list val) : nat :=
  match l with
  | [] => best
  | x :: l' =>
      if vlt bv x then argmax_from i x (S i) l'
      else argmax_from best bv (S i) l'
  end.

(** [np.argmax(l)] *)
Definition argmax (l : list val) : result nat :=
  match l with
  | [] => Raise ValueError
  | x :: l' => Ok (argmax_from 0 x 1 l')
  end.

(** [np.amax(l)] *)
Definition amax (l : list val) : result val :=
  match l with
  | [] => Raise ValueError
  | x :: l' => Ok (fold_left (fun m y => if vlt m y then y else m) l' x)
  end.

End ArrayOps.

(** ** States and their fingerprint *)

(** a board: a 2-d integer array, as a list of rows *)
Definition state : Type := list (list Z).

Module Numpy.

(** [str(x)] for an integer *)
Definition str_int (x : Z) : string := NilZero.string_of_int (Z.to_int x).

Definition rjust (w : nat) (s : string) : string :=
  String.append (string_of_list_ascii (replicate (w - String.length s) " "%char)) s.

(** width of the integer format: the longer of the texts of the greatest
    and of the least entry *)
Definition int_width (row : list Z) : nat :=
  match row with
  | [] => 0
  | x :: row' =>
      Nat.max (String.length (str_int (fold_left Z.max row' x)))
              (String.length (str_int (fold_left Z.min row' x)))
  end.

(** [str(row)] for a 1-d integer array that numpy prints on one line: the
    entries right-justified to a common width, separated by one space, in
    brackets.  This is numpy's text for rows that satisfy [one_line] below;
    a longer row numpy breaks over several lines, and that is not modelled. *)
Definition str_row (row : list Z) : string :=
  String.append "["
    (String.append (String.concat " " (map (fun x => rjust (int_width row) (str_int x)) row))
                   "]").

(** the row is printed on one line: its text has at most 75 characters,
    numpy's line width (it then has fewer than 1000 entries, so that numpy
    does not abbreviate it either) *)
Definition one_line (row : list Z) : Prop :=
  (String.length (str_row row) <= 75)%nat.

End Numpy.

(** [''.join(map(str, state))]: iterating over a 2-d array yields its rows *)
Definition combined_string (st : state) : string :=
  String.concat "" (map Numpy.str_row st).

Definition _Gethash (st : state) : string :=
  MD5.hexdigest (combined_string st).

Definition hex_value (c : ascii) : option Z :=
  let n := Z.of_N (N_of_ascii c) in
  if ((48 <=? n) && (n <=? 57))%Z then Some (n - 48)%Z
  else if ((97 <=? n) && (n <=? 102))%Z then Some (n - 87)%Z
  else if ((65 <=? n) && (n <=? 70))%Z then Some (n - 55)%Z
  else None.

Fixpoint int16_from (acc : Z) (s : string) : result Z :=
  match s with
  | EmptyString => Ok acc
  | String c s' =>
      match hex_value c with
      | Some d => int16_from (16 * acc + d)%Z s'
      | None => Raise ValueError
      end
  end.

(** [int(s, 16)] on a string of hexadecimal digits; the empty string and any
    other character raise [ValueError] *)
Definition int16 (s : string) : result Z :=
  match s with
  | EmptyString => Raise ValueError
  | _ => int16_from 0 s
  end.

(** [s[:n]] and [s[n:]] *)
Fixpoint str_take (n : nat) (s : string) : string :=
  match n, s with
  | S n', String c s' => String c (str_take n' s')
  | _, _ => EmptyString
  end.

Fixpoint str_drop (n : nat) (s : string) : string :=
  match n, s with
  | S n', String _ s' => str_drop n' s'
  | _, _ => s
  end.

(** the bucket of a fingerprint, as computed in [GetCount] and
    [_InsertHashTable] *)
Definition bucket (hash_value : string) : result (nat * nat) :=
  let half_length := (String.length hash_value / 2)%nat in
  let first_half := str_take half_length hash_value in
  let second_half := str_drop half_length hash_value in
  do r <- int16 first_half;
  do c <- int16 second_half;
  Ok (Z.to_nat (r mod 10), Z.to_nat (c mod 10)).

(** ** Randomness

    The two calls into Python's [random] module are kept as events of the
    computation: [Sample n k] is [random.sample(range(n), k)] and [Choice l]
    is [random.choice(l)] on a non-empty list, both uniform by the contract
    of the library. *)
Inductive Rnd (A : Type) : Type :=
| Ret (a : A)
| Sample (n k : nat) (cont : list nat -> Rnd A)
| Choice (l : list nat) (cont : nat -> Rnd A).
Arguments Ret {A} a.
Arguments Sample {A} n k cont.
Arguments Choice {A} l cont.

(** the results a computation can have, over all draws the library can make *)
Inductive outcome {A : Type} : Rnd A -> A -> Prop :=
| outcome_ret (a : A) : outcome (Ret a) a
| outcome_sample (n k : nat) (cont : list nat -> Rnd A) (idx : list nat) (a : A) :
    length idx = k -> NoDup idx -> Forall (fun i => i < n)%nat idx ->
    outcome (cont idx) a -> outcome (Sample n k cont) a
| outcome_choice (l : list nat) (cont : nat -> Rnd A) (i x : nat) (a : A) :
    l !! i = Some x -> outcome (cont x) a -> outcome (Choice l cont) a.

(** ** The function approximator (Keras model) *)
Class Network (val : Type) : Type := {
  weights : Type;
  turn : Type;
  (** one row of [model.predict([states, turns])] *)
  forward : weights -> state -> turn -> list val;
  (** [model.train_on_batch([states, turns], target)]: new weights and loss *)
  train_on_batch :
    weights -> list state -> list turn -> list (list val) -> weights * val
}.

Section Agent.
Context {val : Type} `{!Arith val} `{!Network val}.

(** [model.predict([states, turns])] *)
Definition predict (w : weights) (states : list state) (turns : list turn)
  : list (list val) :=
  zip_with (forward w) states turns.

(** an entry of the replay buffer:
    [[state, action, reward, next_states, done, valid_actions, turns]] *)
Record transition : Type := mkTransition {
  t_state : state;
  t_action : nat;
  t_reward : val;
  t_next_state : state;
  t_done : bool;
  t_valid_actions : list nat;
  t_turn : turn
}.

(** the fields of [self] that the methods below use; [hashtable] is a grid
    of pairwise distinct dicts *)
Record DQN : Type := mkDQN {
  action_size : nat;
  batch_size : nat;
  gamma : val;
  model : weights;
  target_model : weights;
  hashtable : list (list (gmap string nat));
  maxBufferSize : nat;
  replay_buffer : list transition
}.

Definition set_model (w : weights) (self : DQN) : DQN :=
  mkDQN (action_size self) (batch_size self) (gamma self) w
        (target_model self) (hashtable self) (maxBufferSize self)
        (replay_buffer self).

Definition set_target_model (w : weights) (self : DQN) : DQN :=
  mkDQN (action_size self) (batch_size self) (gamma self) (model self)
        w (hashtable self) (maxBufferSize self) (replay_buffer self).

Definition set_hashtable (h : list (list (gmap string nat))) (self : DQN) : DQN :=
  mkDQN (action_size self) (batch_size self) (gamma self) (model self)
        (target_model self) h (maxBufferSize self) (replay_buffer self).

Definition set_replay_buffer (b : list transition) (self : DQN) : DQN :=
  mkDQN (action_size self) (batch_size self) (gamma self) (model self)
        (target_model self) (hashtable self) (maxBufferSize self) b.

(** a method: it returns or raises, and leaves [self] in a new state *)
Definition St (A : Type) : Type := DQN -> result A * DQN.

Definition sret {A} (a : A) : St A := fun self => (Ok a, self).

Definition sbind {A B} (m : St A) (f : A -> St B) : St B :=
  fun self =>
    match m self with
    | (Ok a, self') => f a self'
    | (Raise e, self') => (Raise e, self')
    end.

Definition lift {A} (r : result A) : St A := fun self => (r, self).

Definition update_target_model : St unit :=
  fun self => (Ok tt, set_target_model (model self) self).

(** [__init__], given the freshly built online network *)
Definition init (w : weights) (action_size : nat) (replay_buffer_size : nat)
    (batch_size : nat) (gamma : val) : DQN :=
  mkDQN action_size batch_size gamma w w
        (replicate 15 (replicate 15 ∅)) replay_buffer_size [].

Definition GetCount (st : state) : St nat :=
  fun self =>
    let hash_value := _Gethash st in
    let r :=
      do rc <- bucket hash_value;
      do line <- getitem (hashtable self) rc.1;
      do cell <- getitem line rc.2;
      match cell !! hash_value with
      | None => Ok 0%nat
      | Some n => Ok n
      end in
    (r, self).

Definition _InsertHashTable (st : state) : St unit :=
  fun self =>
    let hash_value := _Gethash st in
    let r :=
      do rc <- bucket hash_value;
      do line <- getitem (hashtable self) rc.1;
      do cell <- getitem line rc.2;
      let cell' :=
        match cell !! hash_value with
        | None => <[hash_value := 1%nat]> cell
        | Some n => <[hash_value := (n + 1)%nat]> cell
        end in
      Ok (<[rc.1 := <[rc.2 := cell']> line]> (hashtable self)) in
    match r with
    | Ok h => (Ok tt, set_hashtable h self)
    | Raise e => (Raise e, self)
    end.

Definition InsertBuffer (t : transition) : St unit :=
  fun self =>
    let buf :=
      if (maxBufferSize self <? length (replay_buffer self))%nat
      then tail (replay_buffer self)
      else replay_buffer self in
    (Ok tt, set_replay_buffer (buf ++ [t]) self).

Definition flush : St (list transition) :=
  fun self => (Ok (replay_buffer self), set_replay_buffer [] self).

End Agent.

Notation "'run' x <- m ; k" := (sbind m (fun x => k))
  (at level 10, x name, m at level 100, k at level 200, only parsing).

(** [sorted(l, reverse=True)] *)
Definition sorted_reverse (l : list nat) : list nat :=
  @merge_sort nat (fun x y => y <= x)%nat (fun x y => decide (y <= x)%nat) l.

Section Trainer.
Context {val : Type} `{!Arith val} `{!Network val}.

Definition gets {A} (f : DQN -> A) : St A := fun self => (Ok (f self), self).

(** the body of the loop of [train], for one [i]: the new [target] *)
Definition train_step (states : list state) (actions : list nat)
    (rewards : list val) (dones : list bool) (valid_actions : list (list nat))
    (Qvalue : list (list val)) (target : list (list val)) (i : nat)
  : St (list (list val)) :=
  run g <- gets gamma;
  run target' <- lift (
    do done <- getitem dones i;
    do r <- getitem rewards i;
    do y <- (if done : bool then Ok (vdiv r (of_int 100))
             else
               do Qrow <- getitem Qvalue i;
               do va <- getitem valid_actions i;
               do sel <- take_indices Qrow va;
               do m <- amax sel;
               Ok (vadd (vdiv r (of_int 100)) (vmul g m)));
    do row <- getitem target i;
    do a <- getitem actions i;
    do row' <- setitem row a y;
    setitem target i row');
  run s <- lift (getitem states i);
  run _ <- _InsertHashTable s;
  sret target'.

Fixpoint train_loop (states : list state) (actions : list nat)
    (rewards : list val) (dones : list bool) (valid_actions : list (list nat))
    (Qvalue : list (list val)) (target : list (list val)) (range : list nat)
  : St (list (list val)) :=
  match range with
  | [] => sret target
  | i :: range' =>
      run target' <-
        train_step states actions rewards dones valid_actions Qvalue target i;
      train_loop states actions rewards dones valid_actions Qvalue target' range'
  end.

(** [for index in ...: del self.replay_buffer[index]] *)
Fixpoint delete_all (indices : list nat) : St unit :=
  match indices with
  | [] => sret tt
  | index :: indices' =>
      run _ <- (fun self =>
                  match delitem (replay_buffer self) index with
                  | Ok b => (Ok tt, set_replay_buffer b self)
                  | Raise e => (Raise e, self)
                  end);
      delete_all indices'
  end.

(** [train] from the point where [minibatch_indices] has been drawn *)
Definition train_minibatch (minibatch_indices : list nat) : St val :=
  run buf <- gets replay_buffer;
  run minibatch <- lift (take_indices buf minibatch_indices);
  let states := map t_state minibatch in
  let actions := map t_action minibatch in
  let rewards := map t_reward minibatch in
  let next_states := map t_next_state minibatch in
  let dones := map t_done minibatch in
  let valid_actions := map t_valid_actions minibatch in
  let turns := map t_turn minibatch in
  run w <- gets model;
  let target := predict w states turns in
  run tw <- gets target_model;
  let Qvalue := predict tw next_states turns in
  run n <- gets batch_size;
  run target <-
    train_loop states actions rewards dones valid_actions Qvalue target (seq 0 n);
  run loss <- (fun self =>
                 let wl := train_on_batch (model self) states turns target in
                 (Ok wl.2, set_model wl.1 self));
  run _ <- delete_all (sorted_reverse minibatch_indices);
  sret loss.

(** [train]: [None] is Python's [None] of the bare [return] *)
Definition train (self : DQN) : Rnd (result (option val) * DQN) :=
  if (length (replay_buffer self) <? batch_size self)%nat
  then Ret (Ok None, self)
  else Sample (length (replay_buffer self)) (batch_size self)
         (fun minibatch_indices =>
            Ret ((run loss <- train_minibatch minibatch_indices;
                  sret (Some loss)) self)).

(** the loop of [BehaviorPolicy] that fills [count];
    [env] is [env.simulateNextState] *)
Fixpoint counts (env : nat -> state) (valid_action : list nat) : St (list nat) :=
  match valid_action with
  | [] => sret []
  | a :: rest =>
      run c <- GetCount (env a);
      run cs <- counts env rest;
      sret (c :: cs)
  end.

(** [q_values + np.sqrt(2*np.log(np.sum(count))/(1+np.array(count)))] *)
Definition uct (q_values : list val) (count : list nat) : list val :=
  zip_with vadd q_values
    (map (fun c =>
            vsqrt (vdiv (vmul (of_int 2) (vlog (of_int (Z.of_nat (sum_list count)))))
                        (of_int (1 + Z.of_nat c))))
         count).

Definition BehaviorPolicy (env : nat -> state) (st : state) (t : turn)
    (valid_action : list nat) (self : DQN) : Rnd (result nat * DQN) :=
  match take_indices (forward (target_model self) st t) valid_action with
  | Raise e => Ret (Raise e, self)
  | Ok q_values =>
      match counts env valid_action self with
      | (Raise e, self') => Ret (Raise e, self')
      | (Ok count, self') =>
          if (sum_list count =? 0)%nat
          then
            (* random.choice(valid_action) *)
            match valid_action with
            | [] => Ret (Raise IndexError, self')
            | _ => Choice valid_action (fun x => Ret (Ok x, self'))
            end
          else
            Ret (do k <- argmax (uct q_values count); getitem valid_action k,
                 self')
      end
  end.

Definition EstimatePolicy (st : state) (t : turn) (valid_action : list nat)
  : St nat :=
  fun self =>
    let q_values := forward (target_model self) st t in
    (do mask <- set_true (replicate (length q_values) false) valid_action;
     do k <- argmax (select_mask q_values mask);
     getitem valid_action k,
     self).

End Trainer.

(** ** Instances used to run the definitions on concrete inputs *)

(** exact rational arithmetic; the square root and the logarithm are given *)
Definition Qarith (sq lg : Q -> Q) : Arith Q := {|
  of_int := inject_Z;
  vadd := Qplus;
  vmul := Qmult;
  vdiv := Qdiv;
  vsqrt := sq;
  vlog := lg;
  vlt := fun x y => negb (Qle_bool y x)
|}.

(** a network that is a lookup table: its weights are the function itself,
    and a training step leaves it as it is and reports loss 0 *)
Definition TableNet : Network Q := {|
  weights := state -> Z -> list Q;
  turn := Z;
  forward := fun w => w;
  train_on_batch := fun w _ _ _ => (w, 0%Q)
|}.


(** ** Vocabulary of the statements *)
Section Vocabulary.
Context {val : Type} `{!Arith val} `{!Network val}.

(** [InsertBuffer] called once for each transition of [ts], in order *)
Fixpoint insert_all (ts : list transition) : St unit :=
  match ts with
  | [] => sret tt
  | t :: ts' => run _ <- InsertBuffer t; insert_all ts'
  end.

(** [_InsertHashTable] called once for each state of [sts], in order *)
Fixpoint record_all (sts : list state) : St unit :=
  match sts with
  | [] => sret tt
  | st :: sts' => run _ <- _InsertHashTable st; record_all sts'
  end.

(** the 15 x 15 grid built by [__init__] *)
Definition grid15 (tbl : list (list (gmap string nat))) : Prop :=
  length tbl = 15%nat /\ Forall (fun line => length line = 15%nat) tbl.

(** the bucket at [(r, c)], for coordinates inside the grid *)
Definition cell (tbl : list (list (gmap string nat))) (r c : nat)
  : gmap string nat :=
  default ∅ (line ← tbl !! r; line !! c).

(** the count kept for a fingerprint, 0 when there is none *)
Definition stored (tbl : list (list (gmap string nat))) (h : string) : nat :=
  match bucket h with
  | Ok (r, c) => default 0%nat (cell tbl r c !! h)
  | Raise _ => 0%nat
  end.

(** a transition that [train] can process: the action is a position of the
    online network's output, and unless the episode is over there are
    legal next actions, all positions of the target network's output *)
Definition trainable (self : DQN) (t : transition) : Prop :=
  (t_action t < length (forward (model self) (t_state t) (t_turn t)))%nat
  /\ (t_done t = false ->
      t_valid_actions t <> []
      /\ Forall (fun a => a < length (forward (target_model self)
                                         (t_next_state t) (t_turn t)))%nat
                (t_valid_actions t)).

(** [m] is the greatest of the entries of [boot] at the positions [valid] *)
Definition max_over (boot : list val) (valid : list nat) (m : val) : Prop :=
  (exists a, a ∈ valid /\ boot !! a = Some m)
  /\ forall a x, a ∈ valid -> boot !! a = Some x -> vlt m x = false.

(** [y] is the learning target of the transition [t]: the rescaled reward,
    plus, unless the episode is over, [gamma] times the greatest bootstrap
    estimate of a legal next action *)
Definition td_value (self : DQN) (t : transition) (y : val) : Prop :=
  if t_done t then y = vdiv (t_reward t) (of_int 100)
  else exists m,
      max_over (forward (target_model self) (t_next_state t) (t_turn t))
               (t_valid_actions t) m
      /\ y = vadd (vdiv (t_reward t) (of_int 100)) (vmul (gamma self) m).

(** the score of an action with estimate [q] and visit count [count], when
    the visit counts of all candidates add up to [total] *)
Definition uct_score (q : val) (total count : nat) : val :=
  vadd q (vsqrt (vdiv (vmul (of_int 2) (vlog (of_int (Z.of_nat total))))
                      (of_int (1 + Z.of_nat count)))).

(** what one pass of the loop of [train] makes of the row of [t] *)
Definition td_row (g : val) (w tw : weights) (t : transition) : result (list val) :=
  do y <- (if t_done t then Ok (vdiv (t_reward t) (of_int 100))
           else
             do sel <- take_indices (forward tw (t_next_state t) (t_turn t))
                                    (t_valid_actions t);
             do m <- amax sel;
             Ok (vadd (vdiv (t_reward t) (of_int 100)) (vmul g m)));
  setitem (forward w (t_state t) (t_turn t)) (t_action t) y.

End Vocabulary.

(** ** More vocabulary: well-formed agents *)
Section WellFormed.
Context {val : Type} `{!Arith val} `{!Network val}.

(** every output of the network has [action_size] entries (the last layer
    is [Dense(self.action_size)]) *)
Definition shaped (self : DQN) : Prop :=
  forall (w : weights) (st : state) (t : turn),
    length (forward w st t) = action_size self.

(** a transition over [n] actions: the action taken is one of them, and
    unless the episode is over the legal next actions are some of them and
    there is at least one *)
Definition legal_transition (n : nat) (t : transition) : Prop :=
  (t_action t < n)%nat
  /\ (t_done t = false ->
      t_valid_actions t <> [] /\ Forall (fun a => a < n)%nat (t_valid_actions t)).

Definition well_formed (self : DQN) : Prop :=
  grid15 (hashtable self)
  /\ Forall (legal_transition (action_size self)) (replay_buffer self).

(** between [self] and [self'] the states [sts] have been recorded: the
    table is still the grid, and the count of any state has grown by the
    number of states of [sts] that have its fingerprint *)
Definition counts_grew_by (self : DQN) (sts : list state) (self' : DQN) : Prop :=
  grid15 (hashtable self')
  /\ forall st : state,
      exists n0 : nat,
        GetCount st self = (Ok n0, self)
        /\ GetCount st self' =
             (Ok (n0 + length (filter (fun s => _Gethash s = _Gethash st) sts))%nat,
              self').

End WellFormed.

(** the number of entries that a run of [n] inserts evicts from a buffer of
    [len] entries with bound [cap] *)
Definition evicted (cap len n : nat) : nat :=
  if (cap <? len)%nat then n else (len + n - (cap + 1))%nat.

(** a string of hexadecimal digits *)
Fixpoint all_hex (s : string) : Prop :=
  match s with
  | EmptyString => True
  | String c s' => is_Some (hex_value c) /\ all_hex s'
  end.

(** the entries of [buf] at the positions [k], [k + 1], ... that are not in
    [idx], in their order *)
Fixpoint unsampled_from {A} (k : nat) (buf : list A) (idx : list nat) : list A :=
  match buf with
  | [] => []
  | x :: buf' =>
      if decide (k ∈ idx) then unsampled_from (S k) buf' idx
      else x :: unsampled_from (S k) buf' idx
  end.

Definition unsampled {A} (buf : list A) (idx : list nat) : list A :=
  unsampled_from 0 buf idx.

(** the text the fingerprint would be taken of if every cell were converted
    on its own: the cell texts in row-major order, nothing in between *)
Definition cell_serialization (st : state) : string :=
  String.concat "" (map Numpy.str_int (concat st)).

(** the cells of a row, each right-justified to [w] characters, with one
    blank between neighbours *)
Fixpoint cells_text (w : nat) (row : list Z) : string :=
  match row with
  | [] => EmptyString
  | x :: rest =>
      match rest with
      | [] => Numpy.rjust w (Numpy.str_int x)
      | _ :: _ =>
          String.append (Numpy.rjust w (Numpy.str_int x))
                        (String " " (cells_text w rest))
      end
  end.

(** the rows of a state, each between brackets, one after the other with
    nothing in between *)
Fixpoint bracketed_rows (st : state) : string :=
  match st with
  | [] => EmptyString
  | row :: st' =>
      String "[" (String.append (cells_text (Numpy.int_width row) row)
                                (String "]" (bracketed_rows st')))
  end.

(** a text without its brackets and blanks *)
Fixpoint strip_layout (s : string) : string :=
  match s with
  | EmptyString => EmptyString
  | String c s' =>
      if (Ascii.eqb c " " || Ascii.eqb c "[" || Ascii.eqb c "]")%bool
      then strip_layout s'
      else String c (strip_layout s')
  end.

(** ** Reading the hashed text back

    The text under the fingerprint is read from its end: a reader holds the
    rows read so far, the cells read of the row it is in, and the characters
    read of the cell it is in. *)
Definition int_value (tok : string) : Z :=
  match NilZero.int_of_string tok with
  | Some d => Z.of_int d
  | None => 0%Z
  end.

Definition reader : Type := state * list Z * string.

Definition close_cell (r : reader) : reader :=
  match r with
  | (rows, row, EmptyString) => (rows, row, EmptyString)
  | (rows, row, tok) => (rows, int_value tok :: row, EmptyString)
  end.

Definition read_char (c : ascii) (r : reader) : reader :=
  if Ascii.eqb c "]" then (r.1.1, [], EmptyString)
  else if Ascii.eqb c "[" then ((close_cell r).1.2 :: r.1.1, [], EmptyString)
  else if Ascii.eqb c " " then close_cell r
  else (r.1.1, r.1.2, String c r.2).

Fixpoint read_text (s : string) (r : reader) : reader :=
  match s with
  | EmptyString => r
  | String c s' => read_char c (read_text s' r)
  end.

Definition decode (s : string) : state := (read_text s ([], [], EmptyString)).1.1.

(** a small agent: three actions, batches of two, and a network that
    predicts [0.1, 0.9, 0.3] for every state *)
Module Demo.

Definition arith : Arith Q := Qarith (fun x => x) (fun x => x).

Definition net : @weights Q TableNet :=
  fun _ _ => [1 # 10; 9 # 10; 3 # 10]%Q.

Definition agent : @DQN Q TableNet :=
  @init Q TableNet net 3 2 2 (99 # 100)%Q.

(** the empty 8 x 8 board *)
Definition board : state := replicate 8 (replicate 8 0%Z).

Definition step (reward : Q) (action : nat) (done : bool) : @transition Q TableNet :=
  @mkTransition Q TableNet board action reward board done [0; 2]%nat 1%Z.

(** the agent after three inserts *)
Definition filled : @DQN Q TableNet :=
  (@insert_all Q TableNet
     [step 7 2 false; step 0 0 false; step 250 1 true] agent).2.

(** a target network whose greatest estimate over the legal actions
    [0] and [2] is [10.0] *)
Definition bootstrap_net : @weights Q TableNet :=
  fun _ _ => [10 # 1; 0 # 1; 4 # 1]%Q.



(** a network with one weight, which is its estimate of every action *)
Definition UniformNet : Network Q := {|
  weights := Q;
  turn := Z;
  forward := fun w _ _ => [w; w; w];
  train_on_batch := fun w _ _ _ => ((w + 1)%Q, 0%Q)
|}.

(** an agent on [UniformNet] with two transitions in its buffer *)
Definition uniform_agent : @DQN Q UniformNet :=
  (@insert_all Q UniformNet
     [@mkTransition Q UniformNet board 2%nat 7%Q board false [0; 2]%nat 1%Z;
      @mkTransition Q UniformNet board 1%nat 250%Q board true [] 1%Z]
     (@init Q UniformNet 0%Q 3 2 2 (99 # 100)%Q)).2.

End Demo.

(** * Proofs *)

(** ** Test vectors of the digest (RFC 1321, A.5) and of the row text *)
Section TestVectors.

Example md5_empty : MD5.hexdigest "" = "d41d8cd98f00b204e9800998ecf8427e"%string.
Proof. vm_compute. reflexivity. Qed.

Example md5_a : MD5.hexdigest "a" = "0cc175b9c0f1b6a831c399e269772661"%string.
Proof. vm_compute. reflexivity. Qed.

Example md5_abc : MD5.hexdigest "abc" = "900150983cd24fb0d6963f7d28e17f72"%string.
Proof. vm_compute. reflexivity. Qed.

Example md5_digits :
  MD5.hexdigest
    "12345678901234567890123456789012345678901234567890123456789012345678901234567890"
  = "57edf4a22be3c955ac49da2e2107b67a"%string.
Proof. vm_compute. reflexivity. Qed.

Example str_row_padded : Numpy.str_row [0; 1; -1]%Z = "[ 0  1 -1]"%string.
Proof. vm_compute. reflexivity. Qed.

Example combined_string_board :
  combined_string [[0; 1]; [-1; 0]]%Z = "[0 1][-1  0]"%string.
Proof. vm_compute. reflexivity. Qed.

Example Gethash_board : _Gethash Demo.board = "abf441b6df14a082f3c8b2ced2b4192b"%string.
Proof. vm_compute. reflexivity. Qed.

End TestVectors.

(** ** The replay buffer *)
Section BufferProofs.
Context {val : Type} `{!Arith val} `{!Network val}.

Lemma InsertBuffer_eq (t : transition) (self : DQN) :
  InsertBuffer t self =
    (Ok tt,
     set_replay_buffer
       (drop (if (maxBufferSize self <? length (replay_buffer self))%nat
              then 1%nat else 0%nat) (replay_buffer self) ++ [t]) self).
Proof.
  unfold InsertBuffer.
  destruct (maxBufferSize self <? length (replay_buffer self))%nat; simpl.
  - by destruct (replay_buffer self).
  - by rewrite drop_0.
Qed.

Lemma insert_all_ok (ts : list transition) (self : DQN) :
  (insert_all ts self).1 = Ok tt.
Proof.
  revert self; induction ts as [|t ts IH]; intros self; [done|].
  simpl. unfold sbind. rewrite InsertBuffer_eq. apply IH.
Qed.

(** size of the buffer after a run of inserts: it grows by one per insert
    until it holds [maxBufferSize + 1] entries, and then stays there *)
Lemma insert_all_length (ts : list transition) (self : DQN) :
  (length (replay_buffer self) <= maxBufferSize self + 1)%nat ->
  length (replay_buffer (insert_all ts self).2) =
    Nat.min (length (replay_buffer self) + length ts) (maxBufferSize self + 1).
Proof.
  revert self; induction ts as [|t ts IH]; intros self Hle.
  - simpl. lia.
  - simpl insert_all. unfold sbind. rewrite InsertBuffer_eq.
    rewrite IH; simpl.
    + rewrite length_app, length_drop. simpl.
      destruct (Nat.ltb_spec (maxBufferSize self) (length (replay_buffer self))); lia.
    + rewrite length_app, length_drop. simpl.
      destruct (Nat.ltb_spec (maxBufferSize self) (length (replay_buffer self))); lia.
Qed.

(** C2: an insert evicts at most one entry, the one at the front, and it
    does so exactly when the buffer holds more than [maxBufferSize]
    entries, then appends the new entry; so [maxBufferSize + 5] inserts
    into an empty buffer leave [maxBufferSize + 1] entries. *)
Theorem InsertBuffer_single_eviction (self : DQN) (t : transition)
    (ts : list transition) :
  (exists evicted : nat,
      (evicted <= 1)%nat
      /\ (evicted = 1%nat <-> (maxBufferSize self < length (replay_buffer self))%nat)
      /\ InsertBuffer t self =
           (Ok tt, set_replay_buffer (drop evicted (replay_buffer self) ++ [t]) self))
  /\ (replay_buffer self = [] ->
      length ts = (maxBufferSize self + 5)%nat ->
      exists self',
        insert_all ts self = (Ok tt, self')
        /\ length (replay_buffer self') = (maxBufferSize self + 1)%nat).
Proof.
  split.
  - exists (if (maxBufferSize self <? length (replay_buffer self))%nat
            then 1%nat else 0%nat).
    split; [|split]; [| |apply InsertBuffer_eq];
      destruct (Nat.ltb_spec (maxBufferSize self) (length (replay_buffer self))); lia.
  - intros Hempty Hlen. exists (insert_all ts self).2. split.
    + pose proof (insert_all_ok ts self) as Hok.
      destruct (insert_all ts self) as [r s]; simpl in *. by subst.
    + rewrite insert_all_length; rewrite Hempty; simpl; lia.
Qed.

(** C4: with fewer than [batch_size] entries in the buffer, [train] is the
    bare [return]: no draw, no loss, and [self] (buffer, table and both
    networks) is left as it is. *)
Theorem train_insufficient_noop (self : DQN) :
  (length (replay_buffer self) < batch_size self)%nat ->
  train self = Ret (Ok None, self).
Proof.
  intros Hlt. unfold train.
  destruct (Nat.ltb_spec (length (replay_buffer self)) (batch_size self)); [done|lia].
Qed.

End BufferProofs.

(** ** Deleting sampled positions *)
Section Unsampled.
Context {A : Type}.
Implicit Types (buf : list A) (idx : list nat).

Lemma unsampled_from_all k buf idx :
  Forall (fun i => i < k)%nat idx -> unsampled_from k buf idx = buf.
Proof.
  revert k; induction buf as [|x buf IH]; intros k Hlt; [done|].
  simpl. destruct (decide (k ∈ idx)) as [Hin|_].
  - rewrite Forall_forall in Hlt. apply Hlt in Hin. lia.
  - f_equal. apply IH. eapply Forall_impl; [exact Hlt|]. simpl; lia.
Qed.

Lemma unsampled_from_ext k buf idx1 idx2 :
  (forall i, i ∈ idx1 <-> i ∈ idx2) ->
  unsampled_from k buf idx1 = unsampled_from k buf idx2.
Proof.
  intros Heq. revert k; induction buf as [|x buf IH]; intros k; [done|].
  simpl. rewrite IH.
  destruct (decide (k ∈ idx1)) as [H1|H1], (decide (k ∈ idx2)) as [H2|H2];
    try done; exfalso; [apply H2, Heq, H1 | apply H1, Heq, H2].
Qed.

(** deleting position [i] when all other sampled positions are before it *)
Lemma unsampled_from_delete k i buf idx :
  (i < length buf)%nat ->
  Forall (fun j => j < k + i)%nat idx ->
  unsampled_from k (delete i buf) idx = unsampled_from k buf ((k + i)%nat :: idx).
Proof.
  revert k i; induction buf as [|x buf IH]; intros k i Hi Hlt; [simpl in Hi; lia|].
  destruct i as [|i]; simpl.
  - rewrite Nat.add_0_r in *. rewrite decide_True by left.
    rewrite !unsampled_from_all; [done| |done].
    constructor; [lia|]. eapply Forall_impl; [exact Hlt|]. simpl; lia.
  - simpl in Hi.
    assert (Hk : k ∈ ((k + S i)%nat :: idx) <-> k ∈ idx).
    { rewrite elem_of_cons. split; [intros [?|?]; [lia|done]|by right]. }
    replace (k + S i)%nat with (S k + i)%nat in * by lia.
    rewrite <- (IH (S k) i); [|lia|done].
    destruct (decide (k ∈ idx)) as [H1|H1],
             (decide (k ∈ ((S k + i)%nat :: idx))) as [H2|H2];
      try done; exfalso; [apply H2, Hk, H1 | apply H1, Hk, H2].
Qed.

Lemma unsampled_nil buf : unsampled buf [] = buf.
Proof. apply unsampled_from_all. constructor. Qed.

End Unsampled.

#[local] Instance ge_flip_transitive : Transitive (fun x y : nat => y <= x)%nat.
Proof. intros x y z ? ?. lia. Qed.

#[local] Instance ge_flip_total : Total (fun x y : nat => y <= x)%nat.
Proof. intros x y. lia. Qed.

Lemma sorted_reverse_Permutation (l : list nat) : sorted_reverse l ≡ₚ l.
Proof. apply merge_sort_Permutation. Qed.

Lemma sorted_reverse_sorted (l : list nat) :
  StronglySorted (fun x y => y <= x)%nat (sorted_reverse l).
Proof. apply (StronglySorted_merge_sort (fun x y : nat => y <= x)%nat). Qed.

Section DeleteProofs.
Context {val : Type} `{!Arith val} `{!Network val}.

Lemma set_replay_buffer_id (self : DQN) :
  set_replay_buffer (replay_buffer self) self = self.
Proof. by destruct self. Qed.

(** the deletion loop of [train], on positions in strictly decreasing order *)
Lemma delete_all_descending (l : list nat) (self : DQN) :
  StronglySorted (fun x y => y <= x)%nat l ->
  NoDup l ->
  Forall (fun i => i < length (replay_buffer self))%nat l ->
  delete_all l self =
    (Ok tt, set_replay_buffer (unsampled (replay_buffer self) l) self)
  /\ length (unsampled (replay_buffer self) l) =
       (length (replay_buffer self) - length l)%nat.
Proof.
  revert self; induction l as [|i l IH]; intros self Hs Hnd Hlt.
  - simpl. rewrite unsampled_nil, set_replay_buffer_id. split; [done|lia].
  - apply StronglySorted_inv in Hs as [Hs Hi].
    apply NoDup_cons in Hnd as [Hni Hnd].
    apply Forall_cons in Hlt as [Hilt Hlt].
    assert (Hbelow : Forall (fun j => j < i)%nat l).
    { rewrite Forall_forall in Hi |- *. intros j Hj.
      specialize (Hi j Hj). simpl in Hi.
      assert (j <> i) by (intros ->; done). lia. }
    simpl delete_all. unfold sbind, delitem.
    destruct (Nat.ltb_spec i (length (replay_buffer self))) as [_|?]; [|lia].
    assert (Hlen : length (delete i (replay_buffer self))
                   = (length (replay_buffer self) - 1)%nat).
    { apply length_delete. by apply lookup_lt_is_Some. }
    destruct (IH (set_replay_buffer (delete i (replay_buffer self)) self))
      as [Heq Hl]; [done|done| |].
    { simpl. rewrite Hlen. eapply Forall_impl; [exact Hbelow|]. simpl; lia. }
    simpl in Heq, Hl. rewrite Heq. unfold unsampled in *.
    pose proof (unsampled_from_delete 0 i (replay_buffer self) l Hilt Hbelow) as Hd.
    simpl in Hd. rewrite Hd in *.
    split; [done|]. rewrite Hl, Hlen. simpl. lia.
Qed.

End DeleteProofs.

(** ** Fingerprints and buckets *)
Section FingerprintProofs.

Lemma hex_value_hex_digit (n : Z) :
  (0 <= n < 16)%Z -> hex_value (MD5.hex_digit n) = Some n.
Proof.
  intros Hn. rewrite <- (Z2Nat.id n) at 2 by lia.
  assert (Hk : (Z.to_nat n < 16)%nat) by lia.
  unfold MD5.hex_digit. generalize dependent (Z.to_nat n). intros k Hk.
  do 16 (destruct k as [|k]; [reflexivity|]). lia.
Qed.

Lemma all_hex_hex_of_bytes (bs : list Z) : all_hex (MD5.hex_of_bytes bs).
Proof.
  induction bs as [|b bs IH]; simpl; [done|].
  repeat split; [| |done]; rewrite hex_value_hex_digit; eauto;
    apply Z.mod_pos_bound; lia.
Qed.

Lemma length_hex_of_bytes (bs : list Z) :
  String.length (MD5.hex_of_bytes bs) = (2 * length bs)%nat.
Proof. induction bs as [|b bs IH]; simpl; [done|]. rewrite IH. lia. Qed.

Lemma length_digest (msg : list Z) : length (MD5.digest msg) = 16%nat.
Proof. unfold MD5.digest. by destruct (MD5.digest_regs msg) as [[[a b] c] d]. Qed.

(** the digest text has 32 characters, all hexadecimal digits *)
Lemma hexdigest_length (s : string) : String.length (MD5.hexdigest s) = 32%nat.
Proof. unfold MD5.hexdigest. by rewrite length_hex_of_bytes, length_digest. Qed.

Lemma hexdigest_all_hex (s : string) : all_hex (MD5.hexdigest s).
Proof. apply all_hex_hex_of_bytes. Qed.

Lemma all_hex_str_take (n : nat) (s : string) : all_hex s -> all_hex (str_take n s).
Proof.
  revert n; induction s as [|c s IH]; intros [|n] Hs; simpl; try done.
  destruct Hs as [? ?]. split; [done|by apply IH].
Qed.

Lemma all_hex_str_drop (n : nat) (s : string) : all_hex s -> all_hex (str_drop n s).
Proof.
  revert n; induction s as [|c s IH]; intros [|n] Hs; simpl; try done.
  destruct Hs as [? ?]. by apply IH.
Qed.

Lemma length_str_take (n : nat) (s : string) :
  String.length (str_take n s) = Nat.min n (String.length s).
Proof.
  revert n; induction s as [|c s IH]; intros [|n]; simpl; try done.
  by rewrite IH.
Qed.

Lemma length_str_drop (n : nat) (s : string) :
  String.length (str_drop n s) = (String.length s - n)%nat.
Proof.
  revert n; induction s as [|c s IH]; intros [|n]; simpl; try done.
Qed.

Lemma int16_from_ok (s : string) (acc : Z) :
  all_hex s -> (0 <= acc)%Z ->
  exists z, int16_from acc s = Ok z /\ (0 <= z)%Z.
Proof.
  revert acc; induction s as [|c s IH]; intros acc Hs Hacc; simpl.
  - eauto.
  - destruct Hs as [[d Hd] Hs]. rewrite Hd. apply IH; [done|].
    assert (0 <= d)%Z; [|lia].
    unfold hex_value in Hd.
    repeat match type of Hd with
           | (if ?b then _ else _) = _ => destruct b eqn:?
           end; inversion Hd; lia.
Qed.

Lemma int16_ok (s : string) :
  all_hex s -> (0 < String.length s)%nat ->
  exists z, int16 s = Ok z /\ (0 <= z)%Z.
Proof.
  intros Hs Hlen. unfold int16. destruct s as [|c s]; [simpl in Hlen; lia|].
  by apply int16_from_ok.
Qed.

(** both halves of a text of at least two hexadecimal digits are numbers,
    and their residues modulo 10 are the bucket *)
Lemma bucket_hex (h : string) :
  all_hex h -> (2 <= String.length h)%nat ->
  exists r c, bucket h = Ok (r, c) /\ (r < 10)%nat /\ (c < 10)%nat.
Proof.
  intros Hh Hlen. unfold bucket.
  assert (Hhalf : (1 <= String.length h / 2 <= String.length h - 1)%nat).
  { pose proof (Nat.div_mod_eq (String.length h) 2) as Hd.
    pose proof (Nat.mod_upper_bound (String.length h) 2). lia. }
  destruct (int16_ok (str_take (String.length h / 2) h)) as (z1 & -> & Hz1).
  { by apply all_hex_str_take. }
  { rewrite length_str_take. lia. }
  destruct (int16_ok (str_drop (String.length h / 2) h)) as (z2 & -> & Hz2).
  { by apply all_hex_str_drop. }
  { rewrite length_str_drop. lia. }
  simpl. eexists _, _. split; [done|].
  pose proof (Z.mod_pos_bound z1 10). pose proof (Z.mod_pos_bound z2 10). lia.
Qed.

Lemma bucket_Gethash (st : state) :
  exists r c, bucket (_Gethash st) = Ok (r, c) /\ (r < 10)%nat /\ (c < 10)%nat.
Proof.
  apply bucket_hex; [apply hexdigest_all_hex|].
  unfold _Gethash. rewrite hexdigest_length. lia.
Qed.

End FingerprintProofs.

(** ** The visit-count table *)
Section TableProofs.
Context {val : Type} `{!Arith val} `{!Network val}.
Implicit Types (tbl : list (list (gmap string nat))) (self : DQN).

(** the table of [__init__] is a 15 x 15 grid *)
Lemma grid15_init (w : weights) (n size batch : nat) (g : val) :
  grid15 (hashtable (init w n size batch g)).
Proof. split; [done|]. repeat constructor. Qed.

Lemma grid15_lookup tbl (r c : nat) :
  grid15 tbl -> (r < 15)%nat -> (c < 15)%nat ->
  exists line, tbl !! r = Some line /\ length line = 15%nat
               /\ line !! c = Some (cell tbl r c).
Proof.
  intros [Hrows Hcols] Hr Hc.
  destruct (lookup_lt_is_Some_2 tbl r) as [line Hline]; [lia|].
  assert (Hlen : length line = 15%nat).
  { rewrite Forall_forall in Hcols. apply Hcols.
    apply list_elem_of_lookup. eauto. }
  destruct (lookup_lt_is_Some_2 line c) as [b Hb]; [lia|].
  exists line. unfold cell. rewrite Hline. simpl. rewrite Hb. done.
Qed.

Lemma cell_insert tbl (r c : nat) (line : list (gmap string nat))
    (x : gmap string nat) (i j : nat) :
  tbl !! r = Some line -> (c < length line)%nat ->
  cell (<[r := <[c := x]> line]> tbl) i j =
    if decide (i = r /\ j = c) then x else cell tbl i j.
Proof.
  intros Hline Hc. unfold cell.
  assert (Hr : (r < length tbl)%nat) by (eapply lookup_lt_Some; eauto).
  destruct (decide (i = r)) as [->|Hne].
  - rewrite list_lookup_insert_eq by done. simpl.
    destruct (decide (j = c)) as [->|Hne].
    + rewrite list_lookup_insert_eq by done. simpl.
      by rewrite decide_True.
    + rewrite list_lookup_insert_ne by done. rewrite Hline. simpl.
      rewrite decide_False; [done|]. intros [_ ?]. done.
  - rewrite list_lookup_insert_ne by done.
    rewrite decide_False; [done|]. intros [? _]. done.
Qed.

Lemma grid15_insert tbl (r c : nat) (line : list (gmap string nat))
    (x : gmap string nat) :
  grid15 tbl -> tbl !! r = Some line ->
  grid15 (<[r := <[c := x]> line]> tbl).
Proof.
  intros [Hrows Hcols] Hline. split.
  - by rewrite length_insert.
  - rewrite Forall_forall in Hcols |- *. intros l Hl.
    apply list_elem_of_lookup in Hl as [i Hi].
    destruct (decide (i = r)) as [->|Hne].
    + rewrite list_lookup_insert_eq in Hi by (eapply lookup_lt_Some; eauto).
      inversion Hi; subst. rewrite length_insert. apply Hcols.
      apply list_elem_of_lookup. eauto.
    + rewrite list_lookup_insert_ne in Hi by done.
      apply Hcols. apply list_elem_of_lookup. eauto.
Qed.

(** [GetCount] reads the count kept for the fingerprint and changes nothing *)
Lemma GetCount_eq (st : state) self :
  grid15 (hashtable self) ->
  GetCount st self = (Ok (stored (hashtable self) (_Gethash st)), self).
Proof.
  intros Hg. unfold GetCount, stored.
  destruct (bucket_Gethash st) as (r & c & Hb & Hr & Hc). rewrite Hb. simpl.
  destruct (grid15_lookup (hashtable self) r c) as (line & Hl & _ & Hcell);
    [done|lia|lia|].
  unfold getitem. rewrite Hl. simpl. rewrite Hcell. simpl.
  by destruct (cell (hashtable self) r c !! _Gethash st).
Qed.

(** [_InsertHashTable] adds one to the count of the fingerprint, in its
    bucket, and touches no other bucket *)
Lemma InsertHashTable_eq (st : state) self (r c : nat) :
  grid15 (hashtable self) ->
  bucket (_Gethash st) = Ok (r, c) ->
  exists tbl',
    _InsertHashTable st self = (Ok tt, set_hashtable tbl' self)
    /\ grid15 tbl'
    /\ forall i j,
        cell tbl' i j =
          if decide (i = r /\ j = c)
          then <[_Gethash st := (stored (hashtable self) (_Gethash st) + 1)%nat]>
                 (cell (hashtable self) r c)
          else cell (hashtable self) i j.
Proof.
  intros Hg Hb.
  destruct (bucket_Gethash st) as (r' & c' & Hb' & Hr & Hc).
  rewrite Hb in Hb'. inversion Hb'; subst r' c'.
  destruct (grid15_lookup (hashtable self) r c) as (line & Hl & Hlen & Hcell);
    [done|lia|lia|].
  unfold _InsertHashTable, stored. rewrite Hb. simpl.
  unfold getitem. rewrite Hl. simpl. rewrite Hcell. simpl.
  eexists. split; [reflexivity|]. split.
  - by apply grid15_insert.
  - intros i j. rewrite cell_insert by (done || lia).
    destruct (decide (i = r /\ j = c)); [|done].
    by destruct (cell (hashtable self) r c !! _Gethash st).
Qed.

Lemma stored_insert tbl tbl' (h : string) (r c n : nat) :
  bucket h = Ok (r, c) ->
  (forall i j,
      cell tbl' i j =
        if decide (i = r /\ j = c) then <[h := n]> (cell tbl r c)
        else cell tbl i j) ->
  forall h', stored tbl' h' = if decide (h' = h) then n else stored tbl h'.
Proof.
  intros Hb Hcell h'. unfold stored.
  destruct (decide (h' = h)) as [->|Hne].
  - rewrite Hb, Hcell, decide_True by done. by rewrite lookup_insert_eq.
  - destruct (bucket h') as [[r' c']|e]; [|done].
    rewrite Hcell. destruct (decide (r' = r /\ c' = c)) as [[-> ->]|_]; [|done].
    by rewrite lookup_insert_ne.
Qed.

(** a run of [record] calls: every call returns, and the count of a
    fingerprint grows by the number of recorded states that have it *)
Lemma record_all_stored (sts : list state) self :
  grid15 (hashtable self) ->
  exists tbl',
    record_all sts self = (Ok tt, set_hashtable tbl' self)
    /\ grid15 tbl'
    /\ forall h,
        stored tbl' h =
          (stored (hashtable self) h
           + length (filter (fun s => _Gethash s = h) sts))%nat.
Proof.
  revert self; induction sts as [|st sts IH]; intros self Hg.
  - exists (hashtable self). simpl. split; [by destruct self|].
    split; [done|]. intros h. lia.
  - destruct (bucket_Gethash st) as (r & c & Hb & _ & _).
    destruct (InsertHashTable_eq st self r c Hg Hb) as (tbl1 & Heq & Hg1 & Hcell).
    destruct (IH (set_hashtable tbl1 self) Hg1) as (tbl2 & Heq2 & Hg2 & Hst).
    exists tbl2. simpl record_all. unfold sbind. rewrite Heq, Heq2.
    split; [done|]. split; [done|]. intros h. rewrite Hst. simpl hashtable.
    rewrite (stored_insert _ _ _ _ _ _ Hb Hcell h).
    rewrite filter_cons.
    destruct (decide (h = _Gethash st)) as [->|Hne].
    + rewrite decide_True by done. simpl. lia.
    + rewrite decide_False by done. lia.
Qed.

Lemma stored_init (h : string) :
  stored (replicate 15 (replicate 15 (∅ : gmap string nat))) h = 0%nat.
Proof.
  unfold stored. destruct (bucket h) as [[r c]|e]; [|done].
  unfold cell.
  destruct (replicate 15 (replicate 15 (∅ : gmap string nat)) !! r) as [line|] eqn:Hl;
    simpl; [|done].
  apply lookup_replicate in Hl as [-> _].
  destruct (replicate 15 (∅ : gmap string nat) !! c) as [b|] eqn:Hc; simpl; [|done].
  apply lookup_replicate in Hc as [-> _]. done.
Qed.

(** C5: [GetCount] returns the number of [_InsertHashTable] calls made on
    states with the fingerprint of [st]: 0 on the table of [__init__], and
    after any run of calls the earlier count plus the number of calls on
    that fingerprint (each such call adds exactly 1, calls on other
    fingerprints add nothing); [GetCount] itself leaves [self] as it is. *)
Theorem GetCount_counts_records self (sts : list state) (st : state) :
  grid15 (hashtable self) ->
  exists (n0 : nat) (self' : DQN),
    GetCount st self = (Ok n0, self)
    /\ (hashtable self = replicate 15 (replicate 15 ∅) -> n0 = 0%nat)
    /\ record_all sts self = (Ok tt, self')
    /\ GetCount st self' =
         (Ok (n0 + length (filter (fun s => _Gethash s = _Gethash st) sts))%nat,
          self').
Proof.
  intros Hg.
  destruct (record_all_stored sts self Hg) as (tbl' & Heq & Hg' & Hst).
  exists (stored (hashtable self) (_Gethash st)), (set_hashtable tbl' self).
  split; [by apply GetCount_eq|]. split.
  { intros ->. apply stored_init. }
  split; [done|].
  rewrite GetCount_eq by done. simpl hashtable. by rewrite Hst.
Qed.

(** C9: the bucket of every fingerprint has row and column below 10, so on
    the 15 x 15 grid [GetCount] and [_InsertHashTable] never index out of
    range; [_InsertHashTable] leaves every bucket with row or column 10..14
    as it was, and the result of [GetCount] does not depend on them. *)
Theorem bucket_within_grid self (st : state) :
  grid15 (hashtable self) ->
  exists r c : nat,
    bucket (_Gethash st) = Ok (r, c) /\ (r < 10)%nat /\ (c < 10)%nat
    /\ (exists n, GetCount st self = (Ok n, self))
    /\ (exists self',
           _InsertHashTable st self = (Ok tt, self')
           /\ grid15 (hashtable self')
           /\ forall i j, (10 <= i)%nat \/ (10 <= j)%nat ->
                cell (hashtable self') i j = cell (hashtable self) i j)
    /\ (forall other : DQN,
           grid15 (hashtable other) ->
           (forall i j, (i < 10)%nat -> (j < 10)%nat ->
                cell (hashtable other) i j = cell (hashtable self) i j) ->
           (GetCount st other).1 = (GetCount st self).1).
Proof.
  intros Hg.
  destruct (bucket_Gethash st) as (r & c & Hb & Hr & Hc).
  exists r, c. repeat split; try done.
  - eexists. by apply GetCount_eq.
  - destruct (InsertHashTable_eq st self r c Hg Hb) as (tbl' & Heq & Hg' & Hcell).
    exists (set_hashtable tbl' self). repeat split; try done; try apply Hg'.
    intros i j Hij. simpl. rewrite Hcell.
    rewrite decide_False; [done|]. intros [-> ->]. lia.
  - intros other Hgo Hsame. rewrite !GetCount_eq by done. simpl.
    unfold stored. rewrite Hb. by rewrite Hsame.
Qed.

End TableProofs.

(** ** Array operations *)
Section ArrayProofs.
Context {A : Type}.

Lemma take_indices_Forall2 (a : list A) (idx : list nat) (xs : list A) :
  take_indices a idx = Ok xs <-> Forall2 (fun i x => a !! i = Some x) idx xs.
Proof.
  revert xs; induction idx as [|i idx IH]; intros xs; simpl.
  - split.
    + intros Heq. inversion Heq. constructor.
    + intros Hf. by inversion Hf.
  - unfold getitem. destruct (a !! i) as [x|] eqn:Hx; simpl.
    + destruct (take_indices a idx) as [ys|e] eqn:Hys; simpl.
      * split.
        -- intros Heq. inversion Heq; subst. constructor; [done|]. by apply IH.
        -- intros Hf. inversion Hf as [|? y ? ys' Hy Hrest]; subst.
           apply IH in Hrest. inversion Hrest. congruence.
      * split; [done|]. intros Hf.
        inversion Hf as [|? y ? ys' Hy Hrest]; subst.
        apply IH in Hrest. done.
    + split; [done|]. intros Hf. inversion Hf; subst. congruence.
Qed.

Lemma take_indices_in_range (a : list A) (idx : list nat) :
  Forall (fun i => i < length a)%nat idx ->
  exists xs, take_indices a idx = Ok xs.
Proof.
  induction idx as [|i idx IH]; intros Hlt; simpl; [eauto|].
  apply Forall_cons in Hlt as [Hi Hlt].
  destruct (lookup_lt_is_Some_2 a i Hi) as [x Hx].
  destruct (IH Hlt) as [xs Hxs].
  unfold getitem. rewrite Hx. simpl. rewrite Hxs. simpl. eauto.
Qed.

Lemma take_indices_length (a : list A) (idx : list nat) (xs : list A) :
  take_indices a idx = Ok xs -> length xs = length idx.
Proof.
  intros Heq. apply take_indices_Forall2 in Heq.
  symmetry. by eapply Forall2_length.
Qed.

End ArrayProofs.

Section MaxProofs.
Context {val : Type} `{!Arith val} `{!ArithOrder val}.

Lemma fold_max_spec (l : list val) (x : val) :
  let m := fold_left (fun m y => if vlt m y then y else m) l x in
  m ∈ x :: l /\ forall y, y ∈ x :: l -> vlt m y = false.
Proof.
  simpl.
  assert (Hgen : forall (l : list val) (x : val) (seen : list val),
             x ∈ seen -> (forall y, y ∈ seen -> vlt x y = false) ->
             let m := fold_left (fun m y => if vlt m y then y else m) l x in
             m ∈ seen ++ l /\ forall y, y ∈ seen ++ l -> vlt m y = false).
  { clear l x. induction l as [|z l IH]; intros x seen Hin Hmax; simpl.
    - rewrite app_nil_r. done.
    - destruct (vlt x z) eqn:Hxz.
      + destruct (IH z (seen ++ [z])) as [H1 H2].
        * apply elem_of_app. right. by apply list_elem_of_singleton.
        * intros y Hy. apply elem_of_app in Hy as [Hy|Hy].
          -- destruct (vlt z y) eqn:Hzy; [|done].
             pose proof (vlt_trans x z y Hxz Hzy) as Hxy.
             rewrite (Hmax y Hy) in Hxy. done.
          -- apply list_elem_of_singleton in Hy as ->. apply vlt_irrefl.
        * rewrite <- app_assoc in H1, H2. simpl in H1, H2. done.
      + destruct (IH x (seen ++ [z])) as [H1 H2].
        * apply elem_of_app. by left.
        * intros y Hy. apply elem_of_app in Hy as [Hy|Hy]; [by apply Hmax|].
          by apply list_elem_of_singleton in Hy as ->.
        * rewrite <- app_assoc in H1, H2. simpl in H1, H2. done. }
  destruct (Hgen l x [x]) as [H1 H2].
  - by apply list_elem_of_singleton.
  - intros y Hy. apply list_elem_of_singleton in Hy as ->. apply vlt_irrefl.
  - done.
Qed.

(** [np.amax] returns an entry that no entry exceeds *)
Lemma amax_spec (l : list val) (m : val) :
  amax l = Ok m -> m ∈ l /\ forall y, y ∈ l -> vlt m y = false.
Proof.
  destruct l as [|x l]; simpl; [done|].
  intros Heq. inversion Heq; subst. apply fold_max_spec.
Qed.

End MaxProofs.

Lemma amax_nonempty {val : Type} `{!Arith val} (l : list val) :
  l <> [] -> exists m, amax l = Ok m.
Proof. destruct l; [done|]. simpl. eauto. Qed.

(** ** The training step *)
Section TrainProofs.
Context {val : Type} `{!Arith val} `{!Network val}.
Implicit Types (self : DQN) (mb : list transition) (t : transition).

Lemma getitem_map {B C : Type} (f : B -> C) (l : list B) (i : nat) (x : B) :
  l !! i = Some x -> getitem (map f l) i = Ok (f x).
Proof. intros Hx. unfold getitem. by rewrite list_lookup_fmap, Hx. Qed.

Lemma predict_map (w : weights) mb (fs : transition -> state)
    (ft : transition -> turn) :
  predict w (map fs mb) (map ft mb) = map (fun t => forward w (fs t) (ft t)) mb.
Proof. unfold predict. induction mb as [|t mb IH]; simpl; [done|]. by rewrite IH. Qed.

Lemma td_row_ok self t :
  trainable self t ->
  exists row, td_row (gamma self) (model self) (target_model self) t = Ok row.
Proof.
  intros [Ha Hv]. unfold td_row, setitem.
  destruct (t_done t).
  - simpl. apply Nat.ltb_lt in Ha. rewrite Ha. eauto.
  - destruct (Hv eq_refl) as [Hne Hrange].
    destruct (take_indices_in_range _ _ Hrange) as [sel Hsel].
    rewrite Hsel. simpl.
    destruct (amax_nonempty sel) as [m Hm].
    { apply take_indices_length in Hsel. destruct sel; [|done].
      destruct (t_valid_actions t); done. }
    rewrite Hm. simpl. apply Nat.ltb_lt in Ha. rewrite Ha. eauto.
Qed.

(** one pass of the loop: the row of [t] is replaced, the state of [t] is
    recorded *)
Lemma train_step_eq mb (w tw : weights) (target : list (list val)) (i : nat)
    t (row' : list val) self :
  mb !! i = Some t ->
  target !! i = Some (forward w (t_state t) (t_turn t)) ->
  td_row (gamma self) w tw t = Ok row' ->
  grid15 (hashtable self) ->
  exists tbl',
    train_step (map t_state mb) (map t_action mb) (map t_reward mb)
               (map t_done mb) (map t_valid_actions mb)
               (map (fun t => forward tw (t_next_state t) (t_turn t)) mb)
               target i self
    = (Ok (<[i := row']> target), set_hashtable tbl' self)
    /\ _InsertHashTable (t_state t) self = (Ok tt, set_hashtable tbl' self)
    /\ grid15 tbl'.
Proof.
  intros Ht Hrow Htd Hg.
  destruct (bucket_Gethash (t_state t)) as (r & c & Hb & _ & _).
  destruct (InsertHashTable_eq (t_state t) self r c Hg Hb) as (tbl' & Heq & Hg' & _).
  exists tbl'. split; [|done].
  unfold train_step, sbind, gets, lift.
  rewrite !(getitem_map _ _ _ _ Ht). simpl.
  unfold td_row in Htd.
  assert (Hi : (i < length target)%nat) by (eapply lookup_lt_Some; eauto).
  destruct (t_done t); simpl in *.
  - unfold getitem at 1. rewrite Hrow. simpl. rewrite Htd. simpl.
    unfold setitem. apply Nat.ltb_lt in Hi. rewrite Hi. by rewrite Heq.
  - destruct (take_indices _ _) as [sel|e]; simpl in *; [|done].
    destruct (amax sel) as [m|e]; simpl in *; [|done].
    unfold getitem at 1. rewrite Hrow. simpl. rewrite Htd. simpl.
    unfold setitem. apply Nat.ltb_lt in Hi. rewrite Hi. by rewrite Heq.
Qed.

(** the whole loop, from position [k]: every row is replaced by its
    [td_row], every state from [k] on is recorded once, in order *)
Lemma train_loop_eq mb (g : val) (w tw : weights) (rows : list (list val)) :
  Forall2 (fun t row => td_row g w tw t = Ok row) mb rows ->
  forall (m k : nat) (target : list (list val)) self,
    (k + m = length mb)%nat ->
    gamma self = g ->
    grid15 (hashtable self) ->
    target = take k rows ++ drop k (map (fun t => forward w (t_state t) (t_turn t)) mb) ->
    exists tbl',
      train_loop (map t_state mb) (map t_action mb) (map t_reward mb)
                 (map t_done mb) (map t_valid_actions mb)
                 (map (fun t => forward tw (t_next_state t) (t_turn t)) mb)
                 target (seq k m) self
      = (Ok rows, set_hashtable tbl' self)
      /\ record_all (map t_state (drop k mb)) self = (Ok tt, set_hashtable tbl' self)
      /\ grid15 tbl'.
Proof.
  intros Hrows. pose proof (Forall2_length _ _ _ Hrows) as Hlen.
  induction m as [|m IH]; intros k target self Hk Hg Hgrid Htarget.
  - exists (hashtable self). simpl.
    rewrite drop_ge by lia. simpl.
    rewrite Htarget, take_ge, drop_ge by (rewrite ?length_map; lia).
    rewrite app_nil_r. unfold sret. by destruct self.
  - assert (Hklt : (k < length mb)%nat) by lia.
    destruct (lookup_lt_is_Some_2 mb k Hklt) as [t Ht].
    destruct (Forall2_lookup_l _ _ _ _ _ Hrows Ht) as (row' & Hrow' & Htd).
    assert (Hold : target !! k = Some (forward w (t_state t) (t_turn t))).
    { rewrite Htarget, lookup_app_r by (rewrite length_take; lia).
      rewrite length_take, lookup_drop.
      replace (k + (k - k `min` length rows))%nat with k by lia.
      by rewrite list_lookup_fmap, Ht. }
    rewrite <- Hg in Htd.
    destruct (train_step_eq mb w tw target k t row' self Ht Hold Htd Hgrid)
      as (tbl1 & Hstep & Hins & Hgrid1).
    destruct (IH (S k) (<[k := row']> target) (set_hashtable tbl1 self))
      as (tbl2 & Hloop & Hrec & Hgrid2); [lia|done|done| |].
    { rewrite Htarget.
      rewrite insert_app_r_alt by (rewrite length_take; lia).
      rewrite length_take.
      replace (k - k `min` length rows)%nat with 0%nat by lia.
      rewrite (take_S_r rows k row') by done.
      erewrite (drop_S (map _ mb) _ k); [|by rewrite list_lookup_fmap, Ht].
      simpl. by rewrite <- app_assoc. }
    exists tbl2. simpl seq. simpl train_loop. unfold sbind at 1.
    rewrite Hstep. rewrite Hloop.
    split; [done|]. split; [|done].
    rewrite (drop_S mb t k) by done. simpl. unfold sbind.
    rewrite Hins. by rewrite Hrec.
Qed.

Lemma Forall_exists_rows {B C : Type} (P : B -> C -> Prop) (l : list B) :
  Forall (fun x => exists y, P x y) l -> exists ys, Forall2 P l ys.
Proof.
  induction 1 as [|x l [y Hy] _ [ys Hys]].
  - exists []. constructor.
  - exists (y :: ys). by constructor.
Qed.

(** [train] after the draw of [idx]: the sampled transitions [mb], the
    target matrix [rows], the table after recording the sampled states,
    one training step on [rows], and the buffer without the sampled
    positions *)
Lemma train_minibatch_eq self (idx : list nat) :
  grid15 (hashtable self) ->
  length idx = batch_size self ->
  NoDup idx ->
  Forall (fun i => i < length (replay_buffer self))%nat idx ->
  Forall (trainable self) (replay_buffer self) ->
  exists mb rows tbl',
    Forall2 (fun j t => replay_buffer self !! j = Some t) idx mb
    /\ Forall2 (fun t row =>
                 td_row (gamma self) (model self) (target_model self) t = Ok row)
               mb rows
    /\ record_all (map t_state mb) self = (Ok tt, set_hashtable tbl' self)
    /\ train_minibatch idx self =
         let wl := train_on_batch (model self) (map t_state mb) (map t_turn mb) rows in
         (Ok wl.2,
          set_replay_buffer (unsampled (replay_buffer self) idx)
            (set_model wl.1 (set_hashtable tbl' self))).
Proof.
  intros Hgrid Hlen Hnd Hrange Hwf.
  destruct (take_indices_in_range _ _ Hrange) as [mb Hmb].
  pose proof (proj1 (take_indices_Forall2 _ _ _) Hmb) as Hsel.
  assert (Hrows : exists rows,
             Forall2 (fun t row =>
                        td_row (gamma self) (model self) (target_model self) t = Ok row)
                     mb rows).
  { apply Forall_exists_rows. rewrite Forall_forall. intros t Ht.
    apply td_row_ok. rewrite Forall_forall in Hwf. apply Hwf.
    apply list_elem_of_lookup in Ht as [i Hi].
    destruct (Forall2_lookup_r _ _ _ _ _ Hsel Hi) as (j & _ & Hj).
    apply list_elem_of_lookup. eauto. }
  destruct Hrows as [rows Hrows].
  assert (Hmblen : length mb = batch_size self).
  { rewrite <- Hlen. symmetry. by eapply Forall2_length. }
  destruct (train_loop_eq mb (gamma self) (model self) (target_model self) rows Hrows
              (batch_size self) 0
              (map (fun t => forward (model self) (t_state t) (t_turn t)) mb) self)
    as (tbl' & Hloop & Hrec & Hgrid'); [lia|done|done|done|].
  rewrite drop_0 in Hrec.
  exists mb, rows, tbl'. repeat split; try done.
  unfold train_minibatch, sbind, gets, lift. rewrite Hmb.
  rewrite !predict_map. rewrite Hloop. simpl.
  set (wl := train_on_batch (model self) (map t_state mb) (map t_turn mb) rows).
  set (self2 := set_model wl.1 (set_hashtable tbl' self)).
  destruct (delete_all_descending (sorted_reverse idx) self2) as [Hdel _].
  { apply sorted_reverse_sorted. }
  { by rewrite sorted_reverse_Permutation. }
  { by rewrite sorted_reverse_Permutation. }
  rewrite Hdel. simpl. f_equal. f_equal.
  apply unsampled_from_ext. intros i.
  by rewrite sorted_reverse_Permutation.
Qed.

Lemma unsampled_length self (idx : list nat) :
  NoDup idx ->
  Forall (fun i => i < length (replay_buffer self))%nat idx ->
  length (unsampled (replay_buffer self) idx)
  = (length (replay_buffer self) - length idx)%nat.
Proof.
  intros Hnd Hrange.
  destruct (delete_all_descending (sorted_reverse idx) self) as [_ Hl].
  { apply sorted_reverse_sorted. }
  { by rewrite sorted_reverse_Permutation. }
  { by rewrite sorted_reverse_Permutation. }
  rewrite (Permutation_length (sorted_reverse_Permutation idx)) in Hl.
  rewrite <- Hl. unfold unsampled. f_equal.
  apply unsampled_from_ext. intros i. by rewrite sorted_reverse_Permutation.
Qed.

(** C3: with at least [batch_size] entries in the buffer, [train] draws
    [batch_size] distinct positions with [random.sample]; whatever the
    draw, the step returns a loss and leaves in the buffer exactly the
    entries at the positions not drawn, in their order, so that the size
    goes down by [batch_size]. *)
Theorem train_consumes_sample self :
  grid15 (hashtable self) ->
  (batch_size self <= length (replay_buffer self))%nat ->
  Forall (trainable self) (replay_buffer self) ->
  exists cont,
    train self = Sample (length (replay_buffer self)) (batch_size self) cont
    /\ forall idx : list nat,
        length idx = batch_size self ->
        NoDup idx ->
        Forall (fun i => i < length (replay_buffer self))%nat idx ->
        exists (loss : val) (self' : DQN),
          cont idx = Ret (Ok (Some loss), self')
          /\ replay_buffer self' = unsampled (replay_buffer self) idx
          /\ length (replay_buffer self')
             = (length (replay_buffer self) - batch_size self)%nat.
Proof.
  intros Hgrid Hsize Hwf. unfold train.
  destruct (Nat.ltb_spec (length (replay_buffer self)) (batch_size self)); [lia|].
  eexists. split; [reflexivity|].
  intros idx Hlen Hnd Hrange. simpl.
  destruct (train_minibatch_eq self idx Hgrid Hlen Hnd Hrange Hwf)
    as (mb & rows & tbl' & _ & _ & _ & Heq).
  unfold sbind. rewrite Heq. simpl.
  eexists _, _. split; [reflexivity|]. simpl. split; [done|].
  rewrite unsampled_length by done. by rewrite Hlen.
Qed.

Lemma td_row_value `{!ArithOrder val} self t (row : list val) :
  td_row (gamma self) (model self) (target_model self) t = Ok row ->
  exists y,
    td_value self t y
    /\ row = <[t_action t := y]> (forward (model self) (t_state t) (t_turn t)).
Proof.
  unfold td_row, td_value, setitem. destruct (t_done t); simpl.
  - destruct (_ <? _)%nat; [|done]. intros Heq. inversion Heq. eauto.
  - destruct (take_indices _ _) as [sel|e] eqn:Hsel; simpl; [|done].
    destruct (amax sel) as [m|e] eqn:Hm; simpl; [|done].
    destruct (_ <? _)%nat; [|done]. intros Heq. inversion Heq.
    eexists. split; [|reflexivity]. exists m. split; [|done].
    apply take_indices_Forall2 in Hsel.
    apply amax_spec in Hm as [Hin Hmax]. split.
    + apply list_elem_of_lookup in Hin as [k Hk].
      destruct (Forall2_lookup_r _ _ _ _ _ Hsel Hk) as (a & Ha & Hboot).
      exists a. split; [|done]. apply list_elem_of_lookup. eauto.
    + intros a x Ha Hx. apply Hmax.
      apply list_elem_of_lookup in Ha as [k Hk].
      destruct (Forall2_lookup_l _ _ _ _ _ Hsel Hk) as (x' & Hx' & Hboot).
      rewrite Hx in Hboot. inversion Hboot; subst.
      apply list_elem_of_lookup. eauto.
Qed.

(** C1: with at least [batch_size] entries in the buffer, [train] draws
    [batch_size] distinct positions and, whatever the draw, returns the loss
    of one [train_on_batch] call of the online network on the sampled states
    and turns, and keeps the weights that call returns.  The matrix given to
    that call has, for each sampled transition, the online network's
    prediction for its state and turn with only the slot of the action
    taken overwritten: by [reward / 100.0] when [done], and otherwise by
    [reward / 100.0 + gamma * m] with [m] the greatest estimate of the
    target network, on the next state and the same turn, over the legal
    next actions. *)
Theorem train_target_rule `{!ArithOrder val} self :
  grid15 (hashtable self) ->
  (batch_size self <= length (replay_buffer self))%nat ->
  Forall (trainable self) (replay_buffer self) ->
  exists cont,
    train self = Sample (length (replay_buffer self)) (batch_size self) cont
    /\ forall idx : list nat,
        length idx = batch_size self ->
        NoDup idx ->
        Forall (fun i => i < length (replay_buffer self))%nat idx ->
        exists (mb : list transition) (target : list (list val)) (self' : DQN),
          Forall2 (fun j t => replay_buffer self !! j = Some t) idx mb
          /\ cont idx =
               Ret (Ok (Some (train_on_batch (model self) (map t_state mb)
                                             (map t_turn mb) target).2),
                    self')
          /\ model self' =
               (train_on_batch (model self) (map t_state mb) (map t_turn mb) target).1
          /\ Forall2 (fun t row =>
                        exists y,
                          td_value self t y
                          /\ row = <[t_action t := y]>
                                     (forward (model self) (t_state t) (t_turn t)))
                     mb target.
Proof.
  intros Hgrid Hsize Hwf. unfold train.
  destruct (Nat.ltb_spec (length (replay_buffer self)) (batch_size self)); [lia|].
  eexists. split; [reflexivity|].
  intros idx Hlen Hnd Hrange. simpl.
  destruct (train_minibatch_eq self idx Hgrid Hlen Hnd Hrange Hwf)
    as (mb & rows & tbl' & Hsel & Hrows & _ & Heq).
  exists mb, rows. unfold sbind. rewrite Heq. simpl.
  eexists. split; [done|]. split; [reflexivity|]. split; [done|].
  eapply Forall2_impl; [exact Hrows|]. intros t row Ht.
  by apply td_row_value.
Qed.

End TrainProofs.

(** ** [np.argmax] *)
Section ArgmaxProofs.
Context {val : Type} `{!Arith val}.

Lemma argmax_from_lt (l : list val) (best : nat) (bv : val) (i : nat) :
  (best < i)%nat -> (argmax_from best bv i l < i + length l)%nat.
Proof.
  revert best bv i; induction l as [|x l IH]; intros best bv i Hlt; simpl; [lia|].
  destruct (vlt bv x).
  - specialize (IH i x (S i)). lia.
  - specialize (IH best bv (S i)). lia.
Qed.

Lemma argmax_lt (l : list val) (k : nat) :
  argmax l = Ok k -> (k < length l)%nat.
Proof.
  destruct l as [|x l]; simpl; [done|]. intros Heq. inversion Heq; subst.
  pose proof (argmax_from_lt l 0 x 1). lia.
Qed.

Lemma argmax_nonempty (l : list val) : l <> [] -> exists k, argmax l = Ok k.
Proof. destruct l; [done|]. simpl. eauto. Qed.

Context `{!ArithOrder val}.

Lemma argmax_from_spec (L : list val) (l : list val) :
  forall (best : nat) (bv : val) (i : nat),
    drop i L = l ->
    L !! best = Some bv ->
    (best < i)%nat ->
    (forall j x, (j < i)%nat -> L !! j = Some x -> vlt bv x = false) ->
    (forall j x, (j < best)%nat -> L !! j = Some x -> vlt x bv = true) ->
    exists v,
      L !! argmax_from best bv i l = Some v
      /\ (forall j x, L !! j = Some x -> vlt v x = false)
      /\ (forall j x, (j < argmax_from best bv i l)%nat ->
                      L !! j = Some x -> vlt x v = true).
Proof.
  induction l as [|x l IH]; intros best bv i Hdrop Hbest Hlt Hmax Hfirst; simpl.
  - exists bv. split; [done|]. split; [|done].
    intros j y Hy. apply (Hmax j); [|done].
    apply lookup_lt_Some in Hy.
    assert (length (drop i L) = 0%nat) by (by rewrite Hdrop).
    rewrite length_drop in *. lia.
  - assert (Hi : L !! i = Some x).
    { pose proof (lookup_drop L i 0) as Hl.
      rewrite Hdrop, Nat.add_0_r in Hl. by rewrite <- Hl. }
    assert (Hdrop' : drop (S i) L = l).
    { replace (S i) with (i + 1)%nat by lia.
      rewrite <- drop_drop, Hdrop. done. }
    destruct (vlt bv x) eqn:Hbx.
    + apply IH; [done|done|lia| |].
      * intros j y Hj Hy. destruct (decide (j = i)) as [->|Hne].
        -- rewrite Hi in Hy. inversion Hy; subst. apply vlt_irrefl.
        -- destruct (vlt x y) eqn:Hxy; [|done].
           pose proof (vlt_trans bv x y Hbx Hxy) as Hby.
           rewrite (Hmax j y) in Hby; [done|lia|done].
      * intros j y Hj Hy.
        destruct (vlt_cotrans bv x y Hbx) as [Hby|Hyx]; [|done].
        rewrite (Hmax j y) in Hby; [done|lia|done].
    + apply IH; [done|done|lia| |done].
      intros j y Hj Hy. destruct (decide (j = i)) as [->|Hne].
      * rewrite Hi in Hy. by inversion Hy; subst.
      * apply (Hmax j); [lia|done].
Qed.

(** [np.argmax] returns the first position of a greatest entry *)
Lemma argmax_spec (l : list val) (k : nat) :
  argmax l = Ok k ->
  exists v,
    l !! k = Some v
    /\ (forall j x, l !! j = Some x -> vlt v x = false)
    /\ (forall j x, (j < k)%nat -> l !! j = Some x -> vlt x v = true).
Proof.
  destruct l as [|x l]; simpl; [done|]. intros Heq. inversion Heq; subst.
  apply (argmax_from_spec (x :: l) l 0 x 1); [done|done|lia| |].
  - intros j y Hj Hy. assert (j = 0%nat) as -> by lia.
    simpl in Hy. inversion Hy; subst. apply vlt_irrefl.
  - intros j y Hj. lia.
Qed.

End ArgmaxProofs.

(** ** The behaviour policy *)
Section BehaviorProofs.
Context {val : Type} `{!Arith val} `{!Network val}.
Implicit Types (self : DQN) (valid_action : list nat).

Lemma counts_eq (env : nat -> state) valid_action self :
  grid15 (hashtable self) ->
  counts env valid_action self =
    (Ok (map (fun a => stored (hashtable self) (_Gethash (env a))) valid_action),
     self).
Proof.
  intros Hg. induction valid_action as [|a rest IH]; simpl; [done|].
  unfold sbind. rewrite GetCount_eq by done. by rewrite IH.
Qed.

(** the two branches of [BehaviorPolicy], on the estimates and the visit
    counts of the candidates *)
Lemma BehaviorPolicy_cases (env : nat -> state) (st : state) (t : turn)
    valid_action self :
  grid15 (hashtable self) ->
  Forall (fun a => a < length (forward (target_model self) st t))%nat valid_action ->
  exists (q_values : list val) (count : list nat),
    Forall2 (fun a q => forward (target_model self) st t !! a = Some q)
            valid_action q_values
    /\ Forall2 (fun a c => GetCount (env a) self = (Ok c, self)) valid_action count
    /\ BehaviorPolicy env st t valid_action self =
         if (sum_list count =? 0)%nat
         then match valid_action with
              | [] => Ret (Raise IndexError, self)
              | _ => Choice valid_action (fun x => Ret (Ok x, self))
              end
         else Ret (do k <- argmax (uct q_values count); getitem valid_action k,
                   self).
Proof.
  intros Hg Hrange.
  destruct (take_indices_in_range _ _ Hrange) as [q_values Hq].
  exists q_values, (map (fun a => stored (hashtable self) (_Gethash (env a))) valid_action).
  split; [by apply take_indices_Forall2|]. split.
  - apply Forall2_fmap_r, Forall_Forall2_diag.
    rewrite Forall_forall. intros a _. by apply GetCount_eq.
  - unfold BehaviorPolicy. rewrite Hq, counts_eq by done. done.
Qed.

Lemma uct_lookup (q_values : list val) (count : list nat) (j : nat)
    (q : val) (c : nat) :
  q_values !! j = Some q -> count !! j = Some c ->
  uct q_values count !! j = Some (uct_score q (sum_list count) c).
Proof.
  intros Hq Hc. unfold uct, uct_score.
  rewrite lookup_zip_with, Hq, list_lookup_fmap, Hc. done.
Qed.

Lemma uct_length (q_values : list val) (count : list nat) :
  length q_values = length count ->
  length (uct q_values count) = length count.
Proof. intros Hl. unfold uct. rewrite length_zip_with, length_map. lia. Qed.

(** C6: when the visit counts of the simulated next states add up to 0, the
    policy is [random.choice] on the whole list of legal actions; otherwise
    it returns the legal action whose score
    [q + sqrt(2 * ln(total) / (1 + count))] is the greatest, the first such
    action in the order of the list. *)
Theorem BehaviorPolicy_rule `{!ArithOrder val} (env : nat -> state)
    (st : state) (t : turn) valid_action self :
  grid15 (hashtable self) ->
  valid_action <> [] ->
  Forall (fun a => a < length (forward (target_model self) st t))%nat valid_action ->
  exists (q_values : list val) (count : list nat),
    Forall2 (fun a q => forward (target_model self) st t !! a = Some q)
            valid_action q_values
    /\ Forall2 (fun a c => GetCount (env a) self = (Ok c, self)) valid_action count
    /\ (sum_list count = 0%nat ->
        BehaviorPolicy env st t valid_action self =
          Choice valid_action (fun a => Ret (Ok a, self)))
    /\ (sum_list count <> 0%nat ->
        exists (k a : nat) (qk : val) (ck : nat),
          BehaviorPolicy env st t valid_action self = Ret (Ok a, self)
          /\ valid_action !! k = Some a
          /\ q_values !! k = Some qk
          /\ count !! k = Some ck
          /\ forall (j : nat) (qj : val) (cj : nat),
              q_values !! j = Some qj -> count !! j = Some cj ->
              vlt (uct_score qk (sum_list count) ck)
                  (uct_score qj (sum_list count) cj) = false
              /\ ((j < k)%nat ->
                  vlt (uct_score qj (sum_list count) cj)
                      (uct_score qk (sum_list count) ck) = true)).
Proof.
  intros Hg Hne Hrange.
  destruct (BehaviorPolicy_cases env st t valid_action self Hg Hrange)
    as (q_values & count & Hq & Hc & Heq).
  exists q_values, count. split; [done|]. split; [done|].
  pose proof (Forall2_length _ _ _ Hq) as Hlq.
  pose proof (Forall2_length _ _ _ Hc) as Hlc.
  split.
  - intros Hz. rewrite Heq, Hz. simpl. by destruct valid_action.
  - intros Hnz. rewrite Heq.
    destruct (Nat.eqb_spec (sum_list count) 0) as [?|_]; [done|].
    destruct (argmax_nonempty (uct q_values count)) as [k Hk].
    { intros Hnil. apply (f_equal length) in Hnil.
      rewrite uct_length in Hnil by lia. simpl in Hnil.
      destruct valid_action; [done|]. simpl in *. lia. }
    pose proof (argmax_lt _ _ Hk) as Hklt. rewrite uct_length in Hklt by lia.
    destruct (lookup_lt_is_Some_2 valid_action k) as [a Ha]; [lia|].
    destruct (lookup_lt_is_Some_2 q_values k) as [qk Hqk]; [lia|].
    destruct (lookup_lt_is_Some_2 count k) as [ck Hck]; [lia|].
    exists k, a, qk, ck. rewrite Hk. simpl. unfold getitem. rewrite Ha.
    repeat split; try done.
    + destruct (argmax_spec _ _ Hk) as (v & Hv & Hmax & _).
      rewrite (uct_lookup _ _ _ _ _ Hqk Hck) in Hv. inversion Hv; subst.
      apply (Hmax j). by apply uct_lookup.
    + intros Hj. destruct (argmax_spec _ _ Hk) as (v & Hv & _ & Hfirst).
      rewrite (uct_lookup _ _ _ _ _ Hqk Hck) in Hv. inversion Hv; subst.
      apply (Hfirst j); [done|]. by apply uct_lookup.
Qed.

End BehaviorProofs.

(** ** Boolean masks *)
Section MaskProofs.
Context {A : Type}.
Implicit Types (a : list A) (mask : list bool) (idx : list nat).

Lemma select_mask_insert_le a mask (i : nat) :
  (length (select_mask a mask) <= length (select_mask a (<[i := true]> mask))
   <= S (length (select_mask a mask)))%nat.
Proof.
  revert mask i; induction a as [|x a IH]; intros [|b mask] i; simpl; try lia.
  destruct i as [|i]; simpl.
  - destruct b; simpl; lia.
  - specialize (IH mask i). destruct b; simpl; lia.
Qed.

Lemma select_mask_insert_pos a mask (i : nat) :
  (i < length mask)%nat -> length a = length mask ->
  (1 <= length (select_mask a (<[i := true]> mask)))%nat.
Proof.
  revert mask i; induction a as [|x a IH]; intros [|b mask] i Hi Hl;
    simpl in *; try lia.
  destruct i as [|i]; simpl; [lia|].
  specialize (IH mask i). destruct b; simpl; [lia|]. apply IH; lia.
Qed.

Lemma select_mask_false a (n : nat) : select_mask a (replicate n false) = [].
Proof. revert n; induction a as [|x a IH]; intros [|n]; simpl; auto. Qed.

(** [mask[idx] = True] succeeds for positions of the mask, and sets at
    least one and at most [len(idx)] bits that were not set *)
Lemma set_true_select a mask idx :
  length a = length mask ->
  Forall (fun i => i < length mask)%nat idx ->
  exists mask',
    set_true mask idx = Ok mask'
    /\ length mask' = length mask
    /\ (length (select_mask a mask) <= length (select_mask a mask')
        <= length (select_mask a mask) + length idx)%nat
    /\ (idx <> [] -> 1 <= length (select_mask a mask'))%nat.
Proof.
  revert mask; induction idx as [|i idx IH]; intros mask Hl Hrange; simpl.
  - exists mask. repeat split; try done; lia.
  - apply Forall_cons in Hrange as [Hi Hrange].
    destruct (Nat.ltb_spec i (length mask)) as [_|?]; [|lia].
    destruct (IH (<[i := true]> mask)) as (mask' & Heq & Hlen & Hbound & _).
    { by rewrite length_insert. }
    { by rewrite length_insert. }
    exists mask'. rewrite length_insert in Hlen.
    pose proof (select_mask_insert_le a mask i).
    pose proof (select_mask_insert_pos a mask i Hi Hl).
    repeat split; try done; lia.
Qed.

End MaskProofs.

(** ** Both policies return a legal action *)
Section LegalProofs.
Context {val : Type} `{!Arith val} `{!Network val}.
Implicit Types (self : DQN) (valid_action : list nat).

Lemma EstimatePolicy_legal (st : state) (t : turn) valid_action self :
  valid_action <> [] ->
  Forall (fun a => a < length (forward (target_model self) st t))%nat valid_action ->
  exists a, EstimatePolicy st t valid_action self = (Ok a, self) /\ a ∈ valid_action.
Proof.
  intros Hne Hrange. unfold EstimatePolicy.
  set (q := forward (target_model self) st t) in *.
  destruct (set_true_select q (replicate (length q) false) valid_action)
    as (mask & -> & _ & Hbound & Hpos).
  { by rewrite length_replicate. }
  { by rewrite length_replicate. }
  rewrite select_mask_false in Hbound. simpl in Hbound. simpl.
  destruct (argmax_nonempty (select_mask q mask)) as [k Hk].
  { intros Hnil. specialize (Hpos Hne). rewrite Hnil in Hpos. simpl in Hpos. lia. }
  rewrite Hk. simpl. apply argmax_lt in Hk.
  destruct (lookup_lt_is_Some_2 valid_action k) as [a Ha]; [lia|].
  exists a. unfold getitem. rewrite Ha. split; [done|].
  apply list_elem_of_lookup. eauto.
Qed.

(** C10: for a non-empty list of legal actions, all positions of the
    network's output, every result of the behaviour policy and the result
    of the estimate policy are actions of that list (and both policies do
    return, and leave [self] as it is). *)
Theorem policies_choose_legal (env : nat -> state) (st : state) (t : turn)
    valid_action self :
  grid15 (hashtable self) ->
  valid_action <> [] ->
  Forall (fun a => a < length (forward (target_model self) st t))%nat valid_action ->
  (exists r, outcome (BehaviorPolicy env st t valid_action self) r)
  /\ (forall r self',
         outcome (BehaviorPolicy env st t valid_action self) (r, self') ->
         exists a, r = Ok a /\ a ∈ valid_action /\ self' = self)
  /\ (exists a,
         EstimatePolicy st t valid_action self = (Ok a, self) /\ a ∈ valid_action).
Proof.
  intros Hg Hne Hrange.
  destruct (BehaviorPolicy_cases env st t valid_action self Hg Hrange)
    as (q_values & count & Hq & Hc & Heq).
  pose proof (Forall2_length _ _ _ Hq) as Hlq.
  pose proof (Forall2_length _ _ _ Hc) as Hlc.
  assert (Hdet : sum_list count <> 0%nat ->
                 exists a, (do k <- argmax (uct q_values count);
                            getitem valid_action k) = Ok a /\ a ∈ valid_action).
  { intros _. destruct (argmax_nonempty (uct q_values count)) as [k Hk].
    { intros Hnil. apply (f_equal length) in Hnil.
      rewrite uct_length in Hnil by lia. simpl in Hnil.
      destruct valid_action; [done|]. simpl in *. lia. }
    rewrite Hk. simpl. apply argmax_lt in Hk. rewrite uct_length in Hk by lia.
    destruct (lookup_lt_is_Some_2 valid_action k) as [a Ha]; [lia|].
    exists a. unfold getitem. rewrite Ha. split; [done|].
    apply list_elem_of_lookup. eauto. }
  rewrite Heq. split; [|split].
  - destruct (Nat.eqb_spec (sum_list count) 0) as [_|Hnz].
    + destruct valid_action as [|a rest]; [done|].
      exists (Ok a, self). by apply (outcome_choice _ _ 0 a); [|constructor].
    + eexists. constructor.
  - intros r self' Hout.
    destruct (Nat.eqb_spec (sum_list count) 0) as [_|Hnz].
    + destruct valid_action as [|a0 rest]; [done|].
      inversion Hout as [| |l cont i x r' Hx Hcont]; subst.
      inversion Hcont; subst. exists x. split; [done|]. split; [|done].
      apply list_elem_of_lookup. eauto.
    + destruct (Hdet Hnz) as (a & Ha & Hin).
      inversion Hout; subst. exists a. rewrite Ha. done.
  - by apply EstimatePolicy_legal.
Qed.

End LegalProofs.

(** ** The estimate policy on increasing lists *)
Section EstimateProofs.
Context {val : Type} `{!Arith val} `{!Network val}.

Lemma set_true_lookup (mask : list bool) (idx : list nat) (mask' : list bool) :
  set_true mask idx = Ok mask' ->
  forall j, mask' !! j = (fun b => b || bool_decide (j ∈ idx)) <$> mask !! j.
Proof.
  revert mask; induction idx as [|i idx IH]; intros mask Heq j; simpl in Heq.
  - inversion Heq; subst. destruct (mask' !! j) as [b|]; simpl; [|done].
    by rewrite orb_false_r.
  - destruct (Nat.ltb_spec i (length mask)) as [Hi|?]; [|done].
    rewrite (IH _ Heq j). destruct (decide (j = i)) as [->|Hne].
    + rewrite list_lookup_insert_eq by done.
      destruct (lookup_lt_is_Some_2 mask i Hi) as [b ->]. simpl.
      rewrite (bool_decide_eq_true_2 (i ∈ i :: idx)) by left.
      by rewrite orb_true_r.
    + rewrite list_lookup_insert_ne by done.
      destruct (mask !! j) as [b|]; simpl; [|done]. do 2 f_equal.
      apply bool_decide_ext. rewrite elem_of_cons. tauto.
Qed.

Lemma select_mask_nil_r {A : Type} (a : list A) : select_mask a [] = [].
Proof. by destruct a. Qed.

(** on an increasing list of positions, the masked vector is the vector of
    the selected entries in the order of the list *)
Lemma select_mask_increasing (q : list val) (mask : list bool) :
  forall (k : nat) (idx : list nat) (vals : list val),
    StronglySorted lt idx ->
    Forall (fun i => k <= i)%nat idx ->
    Forall2 (fun i v => q !! i = Some v) idx vals ->
    length mask = (length q - k)%nat ->
    (forall j, (j < length mask)%nat ->
               mask !! j = Some (bool_decide ((k + j)%nat ∈ idx))) ->
    select_mask (drop k q) mask = vals.
Proof.
  induction mask as [|b mask IH]; intros k idx vals Hs Hge Hvals Hlen Hmask.
  - rewrite select_mask_nil_r. simpl in Hlen.
    destruct Hvals as [|i v idx vals Hi _]; [done|].
    apply Forall_cons in Hge as [Hki _]. apply lookup_lt_Some in Hi. lia.
  - simpl in Hlen.
    destruct (lookup_lt_is_Some_2 q k) as [x Hx]; [lia|].
    rewrite (drop_S q x k Hx). simpl.
    pose proof (Hmask 0%nat) as Hb. simpl in Hb.
    rewrite Nat.add_0_r in Hb. specialize (Hb ltac:(lia)). inversion Hb as [Hb'].
    assert (Htail : forall idx' : list nat,
               (forall j, (S k + j)%nat ∈ idx' <-> (k + S j)%nat ∈ idx) ->
               forall j, (j < length mask)%nat ->
                         mask !! j = Some (bool_decide ((S k + j)%nat ∈ idx'))).
    { intros idx' Hiff j Hj. specialize (Hmask (S j)). simpl in Hmask.
      rewrite Hmask by lia. f_equal. apply bool_decide_ext. by rewrite Hiff. }
    destruct (decide (k ∈ idx)) as [Hin|Hnin].
    + rewrite bool_decide_eq_true_2 by done.
      destruct Hvals as [|i v idx vals Hi Hvals]; [by apply elem_of_nil in Hin|].
      apply StronglySorted_inv in Hs as [Hs Hlt].
      apply Forall_cons in Hge as [Hki Hge].
      assert (i = k) as ->.
      { apply elem_of_cons in Hin as [->|Hin]; [done|].
        rewrite Forall_forall in Hlt. specialize (Hlt k Hin). lia. }
      rewrite Hx in Hi. inversion Hi; subst. f_equal.
      apply (IH (S k) idx vals); [done| |done|lia|].
      * eapply Forall_impl; [exact Hlt|]. simpl; lia.
      * apply Htail. intros j. rewrite elem_of_cons.
        replace (k + S j)%nat with (S k + j)%nat by lia.
        split; [by right|]. intros [?|?]; [lia|done].
    + rewrite bool_decide_eq_false_2 by done.
      apply (IH (S k) idx vals); [done| |done|lia|].
      * rewrite Forall_forall in Hge |- *. intros i Hi.
        specialize (Hge i Hi). assert (i <> k) by (intros ->; done). lia.
      * apply Htail. intros j. by replace (k + S j)%nat with (S k + j)%nat by lia.
Qed.

(** where [EstimatePolicy] is right: on a strictly increasing list of legal
    actions it returns the legal action of greatest estimate, the first one
    in the list among equals *)
Lemma EstimatePolicy_increasing `{!ArithOrder val} (st : state) (t : turn)
    (valid_action : list nat) (self : DQN) :
  valid_action <> [] ->
  StronglySorted lt valid_action ->
  Forall (fun a => a < length (forward (target_model self) st t))%nat valid_action ->
  exists (k a : nat) (v : val),
    EstimatePolicy st t valid_action self = (Ok a, self)
    /\ valid_action !! k = Some a
    /\ forward (target_model self) st t !! a = Some v
    /\ (forall b x, b ∈ valid_action ->
                    forward (target_model self) st t !! b = Some x ->
                    vlt v x = false)
    /\ (forall j b x, (j < k)%nat -> valid_action !! j = Some b ->
                      forward (target_model self) st t !! b = Some x ->
                      vlt x v = true).
Proof.
  intros Hne Hs Hrange. unfold EstimatePolicy.
  set (q := forward (target_model self) st t) in *.
  destruct (set_true_select q (replicate (length q) false) valid_action)
    as (mask & Hset & Hlen & _ & _).
  { by rewrite length_replicate. }
  { by rewrite length_replicate. }
  rewrite length_replicate in Hlen.
  destruct (take_indices_in_range q valid_action Hrange) as [vals Hvals].
  apply take_indices_Forall2 in Hvals.
  assert (Hsel : select_mask q mask = vals).
  { rewrite <- (drop_0 q) at 1.
    apply (select_mask_increasing q mask 0 valid_action vals); try done.
    - rewrite Forall_forall. intros; lia.
    - lia.
    - intros j Hj. rewrite (set_true_lookup _ _ _ Hset j).
      rewrite lookup_replicate_2 by lia. done. }
  rewrite Hset. simpl. rewrite Hsel.
  pose proof (Forall2_length _ _ _ Hvals) as Hl.
  destruct (argmax_nonempty vals) as [k Hk].
  { destruct vals; [|done]. destruct valid_action; done. }
  rewrite Hk. simpl.
  destruct (argmax_spec _ _ Hk) as (v & Hv & Hmax & Hfirst).
  destruct (Forall2_lookup_r _ _ _ _ _ Hvals Hv) as (a & Ha & Hqa).
  exists k, a, v. unfold getitem. rewrite Ha. repeat split; try done.
  - intros b x Hb Hx. apply list_elem_of_lookup in Hb as [j Hj].
    destruct (Forall2_lookup_l _ _ _ _ _ Hvals Hj) as (x' & Hx' & Hqb).
    rewrite Hx in Hqb. inversion Hqb; subst. by apply (Hmax j).
  - intros j b x Hj Hb Hx.
    destruct (Forall2_lookup_l _ _ _ _ _ Hvals Hb) as (x' & Hx' & Hqb).
    rewrite Hx in Hqb. inversion Hqb; subst. by apply (Hfirst j).
Qed.

End EstimateProofs.

(** ** The text under the fingerprint *)
Section SerializationProofs.
Local Open Scope string_scope.
Local Arguments append : simpl nomatch.

Lemma append_empty_r (s : string) : s ++ "" = s.
Proof. induction s as [|c s IH]; simpl; [done|]. by f_equal. Qed.

Lemma append_assoc_str (s1 s2 s3 : string) : (s1 ++ s2) ++ s3 = s1 ++ s2 ++ s3.
Proof. induction s1 as [|c s1 IH]; simpl; [done|]. by f_equal. Qed.

Lemma concat_empty_sep (l : list string) :
  String.concat "" l = fold_right String.append "" l.
Proof.
  induction l as [|x l IH]; [done|].
  destruct l as [|y l]; [simpl; by rewrite append_empty_r|].
  change (String.concat "" (x :: y :: l)) with (x ++ "" ++ String.concat "" (y :: l)).
  rewrite IH. done.
Qed.

Lemma strip_layout_app (s1 s2 : string) :
  strip_layout (s1 ++ s2) = strip_layout s1 ++ strip_layout s2.
Proof.
  induction s1 as [|c s1 IH]; simpl; [done|].
  destruct (_ || _)%bool; simpl; by rewrite IH.
Qed.

Lemma strip_layout_uint (d : Decimal.uint) :
  strip_layout (NilEmpty.string_of_uint d) = NilEmpty.string_of_uint d.
Proof. induction d; simpl; by rewrite ?IHd. Qed.

(** the text of a number has no bracket and no blank *)
Lemma strip_layout_str_int (x : Z) :
  strip_layout (Numpy.str_int x) = Numpy.str_int x.
Proof.
  unfold Numpy.str_int. destruct (Z.to_int x) as [d|d]; simpl.
  - destruct d; try done; simpl; by rewrite strip_layout_uint.
  - f_equal. destruct d; try done; simpl; by rewrite strip_layout_uint.
Qed.

Lemma strip_layout_rjust (w : nat) (s : string) :
  strip_layout (Numpy.rjust w s) = strip_layout s.
Proof.
  unfold Numpy.rjust. rewrite strip_layout_app.
  induction (w - String.length s)%nat as [|n IH]; simpl; done.
Qed.

Lemma strip_layout_concat_blank (l : list string) :
  strip_layout (String.concat " " l) = fold_right String.append "" (map strip_layout l).
Proof.
  induction l as [|x l IH]; [done|].
  destruct l as [|y l]; [simpl; by rewrite append_empty_r|].
  change (String.concat " " (x :: y :: l)) with (x ++ " " ++ String.concat " " (y :: l)).
  rewrite !strip_layout_app, IH. done.
Qed.

Lemma strip_layout_str_row (row : list Z) :
  strip_layout (Numpy.str_row row) = fold_right String.append "" (map Numpy.str_int row).
Proof.
  unfold Numpy.str_row. rewrite !strip_layout_app, strip_layout_concat_blank.
  simpl. rewrite append_empty_r. f_equal.
  rewrite map_map. apply map_ext. intros x.
  by rewrite strip_layout_rjust, strip_layout_str_int.
Qed.

Lemma fold_append_app (l1 l2 : list string) :
  fold_right String.append "" (l1 ++ l2)%list
  = fold_right String.append "" l1 ++ fold_right String.append "" l2.
Proof.
  induction l1 as [|x l1 IH]; simpl; [done|].
  by rewrite IH, append_assoc_str.
Qed.

Lemma cells_text_concat (w : nat) (row : list Z) :
  String.concat " " (map (fun x => Numpy.rjust w (Numpy.str_int x)) row)
  = cells_text w row.
Proof.
  induction row as [|x row IH]; [done|].
  destruct row as [|y row]; [done|].
  change (String.concat " " (map ?f (x :: y :: row)))
    with (f x ++ " " ++ String.concat " " (map f (y :: row))).
  by rewrite IH.
Qed.

Lemma combined_string_bracketed (st : state) :
  combined_string st = bracketed_rows st.
Proof.
  unfold combined_string. rewrite concat_empty_sep.
  induction st as [|row st IH]; [done|].
  cbn [map fold_right bracketed_rows]. rewrite IH.
  unfold Numpy.str_row. rewrite cells_text_concat.
  simpl. f_equal. by rewrite append_assoc_str.
Qed.

Lemma strip_layout_length (s : string) :
  (String.length (strip_layout s) <= String.length s)%nat.
Proof.
  induction s as [|c s IH]; simpl; [done|].
  destruct (_ || _)%bool; simpl; lia.
Qed.

(** C8 (as the code has it): for a state whose rows numpy prints on one
    line, the fingerprint is the MD5 digest, in hexadecimal, of the texts of
    the ROWS of the state, one after the other with nothing in between; the
    text of a row is its cells right-justified to a common width, with one
    blank between neighbours, between brackets.  Without the brackets and
    blanks that text is the cell texts in row-major order, and for a state
    that has a row it is never the cell texts themselves. *)
Theorem Gethash_row_texts (st : state) :
  Forall Numpy.one_line st ->
  _Gethash st = MD5.hexdigest (bracketed_rows st)
  /\ strip_layout (bracketed_rows st) = cell_serialization st
  /\ (st <> [] -> bracketed_rows st <> cell_serialization st).
Proof.
  intros _.
  assert (Hstrip : strip_layout (bracketed_rows st) = cell_serialization st).
  { rewrite <- combined_string_bracketed.
    unfold combined_string, cell_serialization. rewrite !concat_empty_sep.
    induction st as [|row st IH]; [done|].
    cbn -[Numpy.str_row strip_layout Numpy.str_int append].
    rewrite strip_layout_app, IH, strip_layout_str_row.
    rewrite map_app. by rewrite fold_append_app. }
  split; [|split; [done|]].
  - unfold _Gethash. by rewrite combined_string_bracketed.
  - intros Hne Heq. rewrite <- Heq in Hstrip.
    destruct st as [|row st]; [done|].
    apply (f_equal String.length) in Hstrip.
    cbn [bracketed_rows] in Hstrip.
    change (strip_layout (String "[" ?s)) with (strip_layout s) in Hstrip.
    match type of Hstrip with
    | String.length (strip_layout ?s) = _ =>
        pose proof (strip_layout_length s) as Hle
    end.
    rewrite Hstrip in Hle. simpl in Hle. lia.
Qed.

(** C8, as stated, fails on the empty board: the digest of the 64 cell
    texts is not the fingerprint. *)
Lemma Gethash_not_cell_texts :
  _Gethash Demo.board <> MD5.hexdigest (cell_serialization Demo.board).
Proof. vm_compute. discriminate. Qed.

End SerializationProofs.

(** ** The rational instance *)
Section RationalOrder.

Lemma Qarith_vlt_iff (sq lg : Q -> Q) (x y : Q) :
  @vlt Q (Qarith sq lg) x y = true <-> (x < y)%Q.
Proof.
  simpl. rewrite negb_true_iff. split.
  - intros Hle. apply Qnot_le_lt. intros Hyx.
    apply Qle_bool_iff in Hyx. congruence.
  - intros Hlt. destruct (Qle_bool y x) eqn:Hle; [|done].
    apply Qle_bool_iff in Hle. exfalso. by apply (Qlt_not_le x y).
Qed.

Lemma Qarith_order (sq lg : Q -> Q) : @ArithOrder Q (Qarith sq lg).
Proof.
  split.
  - intros x. destruct (@vlt Q (Qarith sq lg) x x) eqn:Hlt; [|done].
    apply Qarith_vlt_iff in Hlt. exfalso. by apply (Qlt_irrefl x).
  - intros x y z Hxy Hyz. apply Qarith_vlt_iff.
    apply Qarith_vlt_iff in Hxy, Hyz. by apply (Qlt_trans x y z).
  - intros x y z Hxy. apply Qarith_vlt_iff in Hxy.
    destruct (Qlt_le_dec x z) as [Hxz|Hzx].
    + left. by apply Qarith_vlt_iff.
    + right. apply Qarith_vlt_iff. by apply (Qle_lt_trans z x y).
Qed.

End RationalOrder.

(** ** The learning target on concrete inputs *)
Section TargetExamples.

(** [done], reward 250: the slot of the action taken becomes 2.5 *)
Example td_row_done_250 :
  exists y : Q,
    @td_row Q Demo.arith TableNet (99 # 100)%Q Demo.net Demo.bootstrap_net
            (Demo.step 250 1 true)
    = Ok [1 # 10; y; 3 # 10]%Q
    /\ (y == 5 # 2)%Q.
Proof. eexists. split; [vm_compute; reflexivity|reflexivity]. Qed.

(** not [done], reward 0, [gamma = 0.99], greatest bootstrap estimate over
    the legal actions 10.0: the slot becomes 9.9 *)
Example td_row_bootstrap_10 :
  exists y : Q,
    @td_row Q Demo.arith TableNet (99 # 100)%Q Demo.net Demo.bootstrap_net
            (Demo.step 0 1 false)
    = Ok [1 # 10; y; 3 # 10]%Q
    /\ (y == 99 # 10)%Q.
Proof. eexists. split; [vm_compute; reflexivity|reflexivity]. Qed.

End TargetExamples.

(** ** The estimate policy on concrete inputs *)
Section EstimateExamples.

(** the value vector [0.1, 0.9, 0.3] with the legal actions [0, 2]:
    action 2 is returned *)
Example EstimatePolicy_ascending_example :
  @EstimatePolicy Q Demo.arith TableNet Demo.board 1%Z [0; 2]%nat Demo.agent
  = (Ok 2%nat, Demo.agent).
Proof. vm_compute. reflexivity. Qed.

(** C7 fails when the legal actions are not listed in increasing order:
    with the value vector [0.1, 0.9, 0.3] and the legal actions [2, 0] the
    policy returns action 0, of value 0.1, although the legal action 2 has
    the greater value 0.3.  The masked vector [q_values[mask]] is in index
    order, and its [argmax] is used as a position of [valid_action]. *)
Theorem EstimatePolicy_descending_wrong :
  @EstimatePolicy Q Demo.arith TableNet Demo.board 1%Z [2; 0]%nat Demo.agent
  = (Ok 0%nat, Demo.agent)
  /\ @forward Q TableNet (target_model Demo.agent) Demo.board 1%Z !! 0%nat
     = Some (1 # 10)%Q
  /\ @forward Q TableNet (target_model Demo.agent) Demo.board 1%Z !! 2%nat
     = Some (3 # 10)%Q
  /\ @vlt Q Demo.arith (1 # 10)%Q (3 # 10)%Q = true.
Proof. vm_compute. done. Qed.

End EstimateExamples.

(** ** The statements above on the small agent *)
Section Witnesses.
#[local] Existing Instance Demo.arith.
#[local] Existing Instance TableNet.

Lemma Demo_order : @ArithOrder Q Demo.arith.
Proof. apply Qarith_order. Qed.

Ltac demo_grid := split; [reflexivity | repeat constructor].
Ltac demo_trainable :=
  repeat constructor; simpl; try lia; try done; repeat constructor; simpl; lia.
Ltac demo_legal := repeat constructor; simpl; lia.

Lemma train_target_rule_witness :
  exists cont,
    train Demo.filled = Sample 3 2 cont
    /\ forall idx : list nat,
        length idx = 2%nat ->
        NoDup idx ->
        Forall (fun i => i < 3)%nat idx ->
        exists (mb : list transition) (target : list (list Q)) (self' : DQN),
          Forall2 (fun j t => replay_buffer Demo.filled !! j = Some t) idx mb
          /\ cont idx =
               Ret (Ok (Some (train_on_batch (model Demo.filled) (map t_state mb)
                                             (map t_turn mb) target).2),
                    self')
          /\ model self' =
               (train_on_batch (model Demo.filled) (map t_state mb)
                               (map t_turn mb) target).1
          /\ Forall2 (fun t row =>
                        exists y,
                          td_value Demo.filled t y
                          /\ row = <[t_action t := y]>
                                     (forward (model Demo.filled) (t_state t) (t_turn t)))
                     mb target.
Proof.
  apply (@train_target_rule Q Demo.arith TableNet Demo_order Demo.filled).
  - demo_grid.
  - simpl. lia.
  - demo_trainable.
Defined.

Lemma InsertBuffer_single_eviction_witness :
  exists self',
    insert_all (replicate 7 (Demo.step 0 0 false)) Demo.agent = (Ok tt, self')
    /\ length (replay_buffer self') = 3%nat.
Proof.
  apply (proj2 (InsertBuffer_single_eviction Demo.agent (Demo.step 0 0 false)
                  (replicate 7 (Demo.step 0 0 false)))); reflexivity.
Defined.

Lemma train_consumes_sample_witness :
  exists cont,
    train Demo.filled = Sample 3 2 cont
    /\ forall idx : list nat,
        length idx = 2%nat ->
        NoDup idx ->
        Forall (fun i => i < 3)%nat idx ->
        exists (loss : Q) (self' : DQN),
          cont idx = Ret (Ok (Some loss), self')
          /\ replay_buffer self' = unsampled (replay_buffer Demo.filled) idx
          /\ length (replay_buffer self') = 1%nat.
Proof.
  apply (@train_consumes_sample Q Demo.arith TableNet Demo.filled).
  - demo_grid.
  - simpl. lia.
  - demo_trainable.
Defined.

Lemma train_insufficient_noop_witness :
  train Demo.agent = Ret (Ok None, Demo.agent).
Proof.
  apply (@train_insufficient_noop Q Demo.arith TableNet Demo.agent).
  simpl. lia.
Defined.

Lemma GetCount_counts_records_witness :
  exists (n0 : nat) (self' : DQN),
    GetCount Demo.board Demo.agent = (Ok n0, Demo.agent)
    /\ (hashtable Demo.agent = replicate 15 (replicate 15 ∅) -> n0 = 0%nat)
    /\ record_all [Demo.board; Demo.board] Demo.agent = (Ok tt, self')
    /\ GetCount Demo.board self' =
         (Ok (n0 + length (filter (fun s => _Gethash s = _Gethash Demo.board)
                                  [Demo.board; Demo.board]))%nat,
          self').
Proof.
  apply (@GetCount_counts_records Q TableNet Demo.agent
           [Demo.board; Demo.board] Demo.board).
  demo_grid.
Defined.

Lemma BehaviorPolicy_rule_witness :
  exists (q_values : list Q) (count : list nat),
    Forall2 (fun a q => forward (target_model Demo.agent) Demo.board 1%Z !! a = Some q)
            [0; 2]%nat q_values
    /\ Forall2 (fun a c => GetCount Demo.board Demo.agent = (Ok c, Demo.agent))
               [0; 2]%nat count
    /\ (sum_list count = 0%nat ->
        BehaviorPolicy (fun _ => Demo.board) Demo.board 1%Z [0; 2]%nat Demo.agent =
          Choice [0; 2]%nat (fun a => Ret (Ok a, Demo.agent)))
    /\ (sum_list count <> 0%nat ->
        exists (k a : nat) (qk : Q) (ck : nat),
          BehaviorPolicy (fun _ => Demo.board) Demo.board 1%Z [0; 2]%nat Demo.agent
          = Ret (Ok a, Demo.agent)
          /\ [0; 2]%nat !! k = Some a
          /\ q_values !! k = Some qk
          /\ count !! k = Some ck
          /\ forall (j : nat) (qj : Q) (cj : nat),
              q_values !! j = Some qj -> count !! j = Some cj ->
              vlt (uct_score qk (sum_list count) ck)
                  (uct_score qj (sum_list count) cj) = false
              /\ ((j < k)%nat ->
                  vlt (uct_score qj (sum_list count) cj)
                      (uct_score qk (sum_list count) ck) = true)).
Proof.
  apply (@BehaviorPolicy_rule Q Demo.arith TableNet Demo_order
           (fun _ => Demo.board) Demo.board 1%Z [0; 2]%nat Demo.agent).
  - demo_grid.
  - discriminate.
  - demo_legal.
Defined.

Lemma bucket_within_grid_witness :
  exists r c : nat,
    bucket (_Gethash Demo.board) = Ok (r, c) /\ (r < 10)%nat /\ (c < 10)%nat
    /\ (exists n, GetCount Demo.board Demo.agent = (Ok n, Demo.agent))
    /\ (exists self',
           _InsertHashTable Demo.board Demo.agent = (Ok tt, self')
           /\ grid15 (hashtable self')
           /\ forall i j, (10 <= i)%nat \/ (10 <= j)%nat ->
                cell (hashtable self') i j = cell (hashtable Demo.agent) i j)
    /\ (forall other : DQN,
           grid15 (hashtable other) ->
           (forall i j, (i < 10)%nat -> (j < 10)%nat ->
                cell (hashtable other) i j = cell (hashtable Demo.agent) i j) ->
           (GetCount Demo.board other).1 = (GetCount Demo.board Demo.agent).1).
Proof.
  apply (@bucket_within_grid Q TableNet Demo.agent Demo.board).
  demo_grid.
Defined.

Lemma policies_choose_legal_witness :
  (exists r,
      outcome (BehaviorPolicy (fun _ => Demo.board) Demo.board 1%Z [0; 2]%nat Demo.agent) r)
  /\ (forall r self',
         outcome (BehaviorPolicy (fun _ => Demo.board) Demo.board 1%Z [0; 2]%nat
                                 Demo.agent) (r, self') ->
         exists a, r = Ok a /\ a ∈ [0; 2]%nat /\ self' = Demo.agent)
  /\ (exists a,
         EstimatePolicy Demo.board 1%Z [0; 2]%nat Demo.agent = (Ok a, Demo.agent)
         /\ a ∈ [0; 2]%nat).
Proof.
  apply (@policies_choose_legal Q Demo.arith TableNet
           (fun _ => Demo.board) Demo.board 1%Z [0; 2]%nat Demo.agent).
  - demo_grid.
  - discriminate.
  - demo_legal.
Defined.

End Witnesses.

(** * Further properties of the code *)

(** ** The buffer is first-in first-out *)
Section FifoProofs.
Context {val : Type} `{!Arith val} `{!Network val}.
Implicit Types (self : DQN) (ts : list transition).

Lemma set_replay_buffer_set (b1 b2 : list transition) self :
  set_replay_buffer b2 (set_replay_buffer b1 self) = set_replay_buffer b2 self.
Proof. done. Qed.

Lemma insert_all_eq ts self :
  insert_all ts self =
    (Ok tt,
     set_replay_buffer
       (drop (evicted (maxBufferSize self) (length (replay_buffer self)) (length ts))
             (replay_buffer self ++ ts))
       self).
Proof.
  revert self; induction ts as [|t ts IH]; intros self.
  - simpl. unfold sret, evicted.
    destruct (Nat.ltb_spec (maxBufferSize self) (length (replay_buffer self))).
    + by rewrite drop_0, app_nil_r, set_replay_buffer_id.
    + replace (length (replay_buffer self) + 0 - (maxBufferSize self + 1))%nat
        with 0%nat by lia.
      by rewrite drop_0, app_nil_r, set_replay_buffer_id.
  - simpl insert_all. unfold sbind. rewrite InsertBuffer_eq, IH.
    rewrite set_replay_buffer_set. simpl. f_equal. f_equal.
    set (b := replay_buffer self). set (cap := maxBufferSize self).
    set (e1 := if (cap <? length b)%nat then 1%nat else 0%nat).
    assert (He1 : (e1 <= length b)%nat).
    { unfold e1. destruct (Nat.ltb_spec cap (length b)); lia. }
    rewrite <- app_assoc. simpl.
    rewrite <- (drop_app_le b (t :: ts) e1) by done.
    rewrite drop_drop. f_equal.
    rewrite length_app, length_drop. simpl. unfold evicted, e1.
    repeat match goal with
           | |- context [(?x <? ?y)%nat] => destruct (Nat.ltb_spec x y)
           end; lia.
Qed.

(** a run of inserts never raises and leaves in the buffer the old entries
    followed by the new ones, in order, without the oldest [evicted] of them
    (first in, first out); the table and the networks are not touched *)
Theorem insert_all_fifo ts self :
  exists self',
    insert_all ts self = (Ok tt, self')
    /\ replay_buffer self' =
         drop (evicted (maxBufferSize self) (length (replay_buffer self)) (length ts))
              (replay_buffer self ++ ts)
    /\ hashtable self' = hashtable self
    /\ model self' = model self
    /\ target_model self' = target_model self.
Proof. rewrite insert_all_eq. eexists. split; [reflexivity|done]. Qed.

(** [flush] hands over the buffer as it is and empties it, so that [train]
    has nothing to do; transitions inserted after a [flush], up to one more
    than the bound, come back from the next [flush] exactly as inserted *)
Theorem flush_round_trip ts self :
  (length ts <= maxBufferSize self + 1)%nat ->
  (flush self).1 = Ok (replay_buffer self)
  /\ ((0 < batch_size self)%nat ->
      train (flush self).2 = Ret (Ok None, (flush self).2))
  /\ flush (insert_all ts (flush self).2).2 = (Ok ts, (flush self).2).
Proof.
  intros Hlen. split; [done|]. split.
  - intros Hb. unfold train. simpl.
    by destruct (Nat.ltb_spec 0 (batch_size self)); [|lia].
  - rewrite insert_all_eq. simpl. unfold evicted. simpl.
    replace (length ts - (maxBufferSize self + 1))%nat with 0%nat by lia.
    by rewrite drop_0.
Qed.

End FifoProofs.

(** ** What a training step leaves alone *)
Section FrameProofs.
Context {val : Type} `{!Arith val} `{!Network val}.
Implicit Types (self : DQN).

Lemma InsertHashTable_frame (st : state) self (r : result unit) (self' : DQN) :
  _InsertHashTable st self = (r, self') ->
  exists tbl, self' = set_hashtable tbl self.
Proof.
  unfold _InsertHashTable.
  destruct (rbind _ _) as [h|e]; intros [= <- <-].
  - eauto.
  - exists (hashtable self). by destruct self.
Qed.

Lemma train_step_frame (states : list state) (actions : list nat)
    (rewards : list val) (dones : list bool) (valid_actions : list (list nat))
    (Qvalue target : list (list val)) (i : nat) self
    (r : result (list (list val))) (self' : DQN) :
  train_step states actions rewards dones valid_actions Qvalue target i self
  = (r, self') ->
  exists tbl, self' = set_hashtable tbl self.
Proof.
  unfold train_step, sbind, gets, lift, sret.
  destruct (rbind (getitem dones i) _) as [target'|e].
  - destruct (getitem states i) as [s|e].
    + destruct (_InsertHashTable s self) as [[[]|e] self1] eqn:Hins;
        intros [= <- <-]; by apply InsertHashTable_frame in Hins.
    + intros [= <- <-]. exists (hashtable self). by destruct self.
  - intros [= <- <-]. exists (hashtable self). by destruct self.
Qed.

Lemma train_loop_frame (states : list state) (actions : list nat)
    (rewards : list val) (dones : list bool) (valid_actions : list (list nat))
    (Qvalue : list (list val)) (range : list nat) :
  forall (target : list (list val)) self (r : result (list (list val))) (self' : DQN),
    train_loop states actions rewards dones valid_actions Qvalue target range self
    = (r, self') ->
    exists tbl, self' = set_hashtable tbl self.
Proof.
  induction range as [|i range IH]; intros target self r self' Heq; simpl in Heq.
  - injection Heq as <- <-. exists (hashtable self). by destruct self.
  - unfold sbind in Heq.
    destruct (train_step _ _ _ _ _ _ _ _ _) as [[target'|e] self1] eqn:Hstep.
    + apply train_step_frame in Hstep as [tbl1 ->].
      apply IH in Heq as [tbl2 ->]. by exists tbl2.
    + apply train_step_frame in Hstep as [tbl1 ->].
      injection Heq as <- <-. by exists tbl1.
Qed.

Lemma delete_all_frame (indices : list nat) :
  forall self (r : result unit) (self' : DQN),
    delete_all indices self = (r, self') ->
    exists b, self' = set_replay_buffer b self.
Proof.
  induction indices as [|i indices IH]; intros self r self' Heq; simpl in Heq.
  - injection Heq as <- <-. exists (replay_buffer self). by destruct self.
  - unfold sbind in Heq. destruct (delitem (replay_buffer self) i) as [b|e].
    + apply IH in Heq as [b' ->]. by exists b'.
    + injection Heq as <- <-. exists (replay_buffer self). by destruct self.
Qed.

(** [train_minibatch] changes the table, the online weights and the
    buffer, and nothing else *)
Lemma train_minibatch_frame (idx : list nat) self (r : result val) (self' : DQN) :
  train_minibatch idx self = (r, self') ->
  exists tbl w b, self' = set_replay_buffer b (set_model w (set_hashtable tbl self)).
Proof.
  unfold train_minibatch, sbind, gets, lift, sret.
  destruct (take_indices (replay_buffer self) idx) as [mb|e].
  - destruct (train_loop _ _ _ _ _ _ _ _ _) as [[target|e] self1] eqn:Hloop.
    + apply train_loop_frame in Hloop as [tbl ->].
      destruct (delete_all _ _) as [[[]|e] self2] eqn:Hdel;
        apply delete_all_frame in Hdel as [b ->];
        intros [= <- <-]; eauto.
    + apply train_loop_frame in Hloop as [tbl ->].
      intros [= <- <-].
      exists tbl, (model self), (replay_buffer self). by destruct self.
  - intros [= <- <-].
    exists (hashtable self), (model self), (replay_buffer self). by destruct self.
Qed.

(** whatever the draw, and whether the step returns or raises, [train]
    leaves the target network, [gamma], [batch_size], [maxBufferSize] and
    [action_size] as they were: only [update_target_model] and [load] move
    the target network, and the online weights never leak into it *)
Theorem train_keeps_target_model self (r : result (option val)) (self' : DQN) :
  outcome (train self) (r, self') ->
  target_model self' = target_model self
  /\ gamma self' = gamma self
  /\ batch_size self' = batch_size self
  /\ maxBufferSize self' = maxBufferSize self
  /\ action_size self' = action_size self.
Proof.
  unfold train.
  destruct (length (replay_buffer self) <? batch_size self)%nat; intros Hout.
  - by inversion Hout; subst.
  - inversion Hout as [|n k cont idx a Hlen Hnd Hrange Hcont|]; subst.
    inversion Hcont as [a Heq| |]; subst. unfold sbind, sret in *.
    destruct (train_minibatch idx self) as [[loss|e] self1] eqn:Htm;
      apply train_minibatch_frame in Htm as (tbl & w & b & ->);
      match goal with H : (_, _) = (_, _) |- _ => inversion H; subst end; done.
Qed.

End FrameProofs.

(** ** A training step that raises *)
Section RaiseProofs.
Context {val : Type} `{!Arith val} `{!Network val}.
Implicit Types (self : DQN) (mb : list transition) (t : transition).




End RaiseProofs.

(** ** Training and the visit counts; well-formed agents *)
Section InvariantProofs.
Context {val : Type} `{!Arith val} `{!Network val}.
Implicit Types (self : DQN) (t : transition).

Lemma Forall_unsampled_from {A : Type} (P : A -> Prop) (k : nat) (buf : list A)
    (idx : list nat) :
  Forall P buf -> Forall P (unsampled_from k buf idx).
Proof.
  revert k; induction buf as [|x buf IH]; intros k Hall; simpl; [done|].
  apply Forall_cons in Hall as [Hx Hall].
  destruct (decide (k ∈ idx)); [by apply IH|]. constructor; [done|by apply IH].
Qed.

Lemma legal_trainable self t :
  shaped self -> legal_transition (action_size self) t -> trainable self t.
Proof.
  intros Hs [Ha Hv]. split; [by rewrite Hs|].
  intros Hd. destruct (Hv Hd) as [Hne Hall]. split; [done|].
  by rewrite Hs.
Qed.

(** on a network whose outputs have [action_size] entries, a well-formed
    agent stays well-formed through [train], and [train] never raises,
    whatever the draw *)
Theorem train_keeps_well_formed self (r : result (option val)) (self' : DQN) :
  shaped self ->
  well_formed self ->
  outcome (train self) (r, self') ->
  (exists o, r = Ok o) /\ well_formed self' /\ shaped self'.
Proof.
  intros Hs [Hgrid Hlegal]. unfold train.
  destruct (length (replay_buffer self) <? batch_size self)%nat; intros Hout.
  - inversion Hout; subst. split; [eauto|]. by split.
  - inversion Hout as [|n k cont idx a Hlen Hnd Hrange Hcont|]; subst.
    inversion Hcont as [a Heq| |]; subst. unfold sbind, sret in *.
    assert (Hwf : Forall (trainable self) (replay_buffer self)).
    { eapply Forall_impl; [exact Hlegal|]. intros t. by apply legal_trainable. }
    destruct (train_minibatch_eq self idx Hgrid Hlen Hnd Hrange Hwf)
      as (mb & rows & tbl' & _ & _ & Hrec & Heq).
    destruct (record_all_stored (map t_state mb) self Hgrid) as (tbl2 & Hrec2 & Hg2 & _).
    rewrite Hrec in Hrec2. injection Hrec2 as Htbl. subst tbl2.
    rewrite Heq in *. simpl in *.
    match goal with H : (_, _) = (_, _) |- _ => injection H as <- <- end.
    split; [eauto|]. split; [|done]. split; [done|]. simpl.
    by apply Forall_unsampled_from.
Qed.

(** inserting a legal transition, [flush] and [update_target_model] keep an
    agent well-formed *)
Theorem other_methods_keep_well_formed self t :
  well_formed self ->
  legal_transition (action_size self) t ->
  well_formed (InsertBuffer t self).2
  /\ well_formed (flush self).2
  /\ well_formed (update_target_model self).2.
Proof.
  intros [Hgrid Hlegal] Ht. split; [|split].
  - rewrite InsertBuffer_eq. split; [done|]. simpl.
    apply Forall_app. split; [by apply Forall_drop|]. by constructor.
  - split; [done|]. constructor.
  - by split.
Qed.

End InvariantProofs.

(** ** The policies at the edges *)
Section PolicyEdgeProofs.
Context {val : Type} `{!Arith val} `{!Network val}.
Implicit Types (self : DQN) (valid_action : list nat).

Lemma take_indices_out_of_range {A : Type} (a : list A) (idx : list nat) :
  Exists (fun i => length a <= i)%nat idx ->
  take_indices a idx = Raise IndexError.
Proof.
  induction idx as [|i idx IH]; intros Hex; [by inversion Hex|].
  simpl. unfold getitem. destruct (a !! i) as [x|] eqn:Hx; simpl; [|done].
  apply Exists_cons in Hex as [Hi|Hex].
  - apply lookup_lt_Some in Hx. lia.
  - by rewrite IH.
Qed.

Lemma set_true_out_of_range (idx : list nat) :
  forall mask : list bool,
    Exists (fun i => length mask <= i)%nat idx ->
    set_true mask idx = Raise IndexError.
Proof.
  induction idx as [|i idx IH]; intros mask Hex; [by inversion Hex|].
  simpl. destruct (Nat.ltb_spec i (length mask)) as [Hi|Hi]; [|done].
  apply Exists_cons in Hex as [?|Hex]; [lia|].
  apply IH. by rewrite length_insert.
Qed.

(** without a legal action [EstimatePolicy] raises [ValueError] ([argmax] of
    an empty array) and [BehaviorPolicy] raises [IndexError]
    ([random.choice] of an empty list); an action that is not a position of
    the network's output makes both raise [IndexError]; [self] is left as it
    is in every case *)
Theorem policies_reject_bad_actions (env : nat -> state) (st : state) (t : turn)
    valid_action self :
  EstimatePolicy st t [] self = (Raise ValueError, self)
  /\ BehaviorPolicy env st t [] self = Ret (Raise IndexError, self)
  /\ (Exists (fun a => length (forward (target_model self) st t) <= a)%nat
             valid_action ->
      EstimatePolicy st t valid_action self = (Raise IndexError, self)
      /\ BehaviorPolicy env st t valid_action self = Ret (Raise IndexError, self)).
Proof.
  split; [|split].
  - unfold EstimatePolicy. simpl. by rewrite select_mask_false.
  - done.
  - intros Hex. split.
    + unfold EstimatePolicy. rewrite set_true_out_of_range; [done|].
      by rewrite length_replicate.
    + unfold BehaviorPolicy. by rewrite take_indices_out_of_range.
Qed.

Lemma sum_list_zero (l : list nat) : Forall (fun c => c = 0%nat) l -> sum_list l = 0%nat.
Proof. induction 1 as [|c l -> _ IH]; simpl; [done|]. by rewrite IH. Qed.

(** until the first training step the visit counts are all 0: on an agent
    fresh from [__init__], after any number of inserts, the behaviour policy
    is [random.choice] on the legal actions *)
Theorem BehaviorPolicy_explores_before_training (w : weights) (n size batch : nat)
    (g : val) (ts : list transition) (env : nat -> state) (st : state) (t : turn)
    valid_action :
  valid_action <> [] ->
  Forall (fun a => a < length (forward w st t))%nat valid_action ->
  exists self,
    insert_all ts (init w n size batch g) = (Ok tt, self)
    /\ BehaviorPolicy env st t valid_action self =
         Choice valid_action (fun a => Ret (Ok a, self)).
Proof.
  intros Hne Hrange. rewrite insert_all_eq. eexists. split; [reflexivity|].
  set (self := set_replay_buffer _ _).
  assert (Hg : grid15 (hashtable self)) by apply (grid15_init w n size batch g).
  destruct (BehaviorPolicy_cases env st t valid_action self Hg Hrange)
    as (q_values & count & _ & Hc & Heq).
  rewrite Heq. rewrite sum_list_zero.
  - simpl. by destruct valid_action.
  - rewrite Forall_forall. intros c Hin.
    apply list_elem_of_lookup in Hin as [i Hi].
    destruct (Forall2_lookup_r _ _ _ _ _ Hc Hi) as (a & _ & Hac).
    rewrite GetCount_eq in Hac by done. injection Hac as <-.
    apply stored_init.
Qed.

End PolicyEdgeProofs.

(** ** Visit counts never go down *)
Section MonotoneProofs.
Context {val : Type} `{!Arith val} `{!Network val}.
Implicit Types (self : DQN).

Lemma InsertHashTable_ok (st : state) self :
  grid15 (hashtable self) ->
  exists tbl', _InsertHashTable st self = (Ok tt, set_hashtable tbl' self) /\ grid15 tbl'.
Proof.
  intros Hg. destruct (bucket_Gethash st) as (r & c & Hb & _ & _).
  destruct (InsertHashTable_eq st self r c Hg Hb) as (tbl' & Heq & Hg' & _). eauto.
Qed.

Lemma train_step_records (states : list state) (actions : list nat)
    (rewards : list val) (dones : list bool) (valid_actions : list (list nat))
    (Qvalue target : list (list val)) (i : nat) self
    (r : result (list (list val))) (self' : DQN) :
  grid15 (hashtable self) ->
  train_step states actions rewards dones valid_actions Qvalue target i self
  = (r, self') ->
  exists sts, record_all sts self = (Ok tt, self').
Proof.
  intros Hg. unfold train_step, sbind, gets, lift, sret.
  destruct (rbind (getitem dones i) _) as [target'|e].
  - destruct (getitem states i) as [s|e].
    + destruct (InsertHashTable_ok s self Hg) as (tbl' & Hins & _).
      rewrite Hins. intros [= <- <-]. exists [s]. simpl. unfold sbind.
      by rewrite Hins.
    + intros [= <- <-]. by exists [].
  - intros [= <- <-]. by exists [].
Qed.

Lemma record_all_app (sts1 sts2 : list state) self (self1 self2 : DQN) :
  record_all sts1 self = (Ok tt, self1) ->
  record_all sts2 self1 = (Ok tt, self2) ->
  record_all (sts1 ++ sts2) self = (Ok tt, self2).
Proof.
  revert self; induction sts1 as [|s sts1 IH]; intros self H1 H2; simpl in *.
  - by injection H1 as <-.
  - unfold sbind in *.
    destruct (_InsertHashTable s self) as [[[]|e] self0]; [|done].
    by apply IH.
Qed.

Lemma train_loop_records (states : list state) (actions : list nat)
    (rewards : list val) (dones : list bool) (valid_actions : list (list nat))
    (Qvalue : list (list val)) (range : list nat) :
  forall (target : list (list val)) self (r : result (list (list val))) (self' : DQN),
    grid15 (hashtable self) ->
    train_loop states actions rewards dones valid_actions Qvalue target range self
    = (r, self') ->
    exists sts, record_all sts self = (Ok tt, self').
Proof.
  induction range as [|i range IH]; intros target self r self' Hg Heq; simpl in Heq.
  - injection Heq as <- <-. by exists [].
  - unfold sbind in Heq.
    destruct (train_step _ _ _ _ _ _ _ _ _) as [[target'|e] self1] eqn:Hstep.
    + destruct (train_step_records _ _ _ _ _ _ _ _ _ _ _ Hg Hstep) as [sts1 H1].
      destruct (record_all_stored sts1 self Hg) as (tbl1 & H1' & Hg1 & _).
      rewrite H1 in H1'. injection H1' as ->.
      destruct (IH target' (set_hashtable tbl1 self) r self' Hg1 Heq) as [sts2 H2].
      exists (sts1 ++ sts2). by eapply record_all_app.
    + injection Heq as <- <-. by eapply train_step_records.
Qed.

(** whatever the draw, and whether the step returns or raises, [train]
    keeps the table a 15 x 15 grid and lowers the count of no state *)
Theorem train_never_lowers_counts self (r : result (option val)) (self' : DQN) :
  grid15 (hashtable self) ->
  outcome (train self) (r, self') ->
  grid15 (hashtable self')
  /\ forall st : state,
      exists n0 n1 : nat,
        GetCount st self = (Ok n0, self)
        /\ GetCount st self' = (Ok n1, self')
        /\ (n0 <= n1)%nat.
Proof.
  intros Hg Hout.
  assert (Hrec : exists sts tbl,
             record_all sts self = (Ok tt, set_hashtable tbl self)
             /\ hashtable self' = tbl).
  { revert Hout. unfold train.
    destruct (length (replay_buffer self) <? batch_size self)%nat; intros Hout.
    - inversion Hout; subst. exists [], (hashtable self'). by destruct self'.
    - inversion Hout as [|n k cont idx a Hlen Hnd Hrange Hcont|]; subst.
      inversion Hcont as [a Heq| |]; subst. clear Hout Hcont.
      match goal with H : sbind _ _ _ = _ |- _ => rename H into Heq end.
      assert (Htm : exists r1 s1, train_minibatch idx self = (r1, s1)
                                  /\ hashtable s1 = hashtable self').
      { unfold sbind, sret in *.
        destruct (train_minibatch idx self) as [[loss|e] s1];
          match goal with H : (_, _) = (_, _) |- _ => injection H as <- <- end;
          eauto. }
      destruct Htm as (r1 & s1 & Htm & <-). clear Heq.
      unfold train_minibatch, sbind, gets, lift, sret in Htm.
      destruct (take_indices (replay_buffer self) idx) as [mb|e].
      + destruct (train_loop _ _ _ _ _ _ _ _ _) as [[target|e] self1] eqn:Hloop.
        * destruct (train_loop_records _ _ _ _ _ _ _ _ _ _ _ Hg Hloop) as [sts Hsts].
          destruct (record_all_stored sts self Hg) as (tbl & Hsts' & _ & _).
          rewrite Hsts in Hsts'. injection Hsts' as ->.
          exists sts, tbl. split; [done|].
          destruct (delete_all _ _) as [[[]|e] self2] eqn:Hdel;
            apply delete_all_frame in Hdel as [b ->];
            by injection Htm as <- <-.
        * destruct (train_loop_records _ _ _ _ _ _ _ _ _ _ _ Hg Hloop) as [sts Hsts].
          destruct (record_all_stored sts self Hg) as (tbl & Hsts' & _ & _).
          rewrite Hsts in Hsts'. injection Hsts' as ->.
          exists sts, tbl. split; [done|]. by injection Htm as <- <-.
      + injection Htm as <- <-. exists [], (hashtable self). by destruct self. }
  destruct Hrec as (sts & tbl & Hrec & Htbl).
  destruct (record_all_stored sts self Hg) as (tbl2 & Hrec2 & Hg2 & Hst).
  rewrite Hrec in Hrec2. injection Hrec2 as Heq. subst tbl2.
  rewrite Htbl. split; [done|]. intros st.
  exists (stored (hashtable self) (_Gethash st)), (stored tbl (_Gethash st)).
  rewrite !GetCount_eq by (done || by rewrite Htbl).
  rewrite Htbl, Hst. repeat split; lia.
Qed.

End MonotoneProofs.

(** ** A step that returns has recorded its sample *)
Section RecordProofs.
Context {val : Type} `{!Arith val} `{!Network val}.
Implicit Types (self : DQN).

Lemma train_step_ok_records (states : list state) (actions : list nat)
    (rewards : list val) (dones : list bool) (valid_actions : list (list nat))
    (Qvalue target target' : list (list val)) (i : nat) self (self' : DQN) :
  train_step states actions rewards dones valid_actions Qvalue target i self
  = (Ok target', self') ->
  exists s, states !! i = Some s /\ _InsertHashTable s self = (Ok tt, self').
Proof.
  unfold train_step, sbind, gets, lift, sret.
  destruct (rbind (getitem dones i) _) as [t1|e]; [|done].
  unfold getitem. destruct (states !! i) as [s|]; [|done].
  destruct (_InsertHashTable s self) as [[[]|e] self1] eqn:Hins; [|done].
  intros [= <- <-]. eauto.
Qed.

Lemma train_loop_ok_records (states : list state) (actions : list nat)
    (rewards : list val) (dones : list bool) (valid_actions : list (list nat))
    (Qvalue : list (list val)) :
  forall (m k : nat) (target target' : list (list val)) self (self' : DQN),
    train_loop states actions rewards dones valid_actions Qvalue target (seq k m) self
    = (Ok target', self') ->
    record_all (take m (drop k states)) self = (Ok tt, self').
Proof.
  induction m as [|m IH]; intros k target target' self self' Heq; simpl in Heq.
  - injection Heq as <- <-. done.
  - unfold sbind in Heq.
    destruct (train_step _ _ _ _ _ _ _ _ _) as [[t1|e] self1] eqn:Hstep; [|done].
    apply train_step_ok_records in Hstep as (s & Hs & Hins).
    rewrite (drop_S states s k Hs). simpl. unfold sbind. rewrite Hins.
    by eapply IH.
Qed.

Lemma record_all_counts (sts : list state) self (self1 self' : DQN) :
  grid15 (hashtable self) ->
  record_all sts self = (Ok tt, self1) ->
  hashtable self' = hashtable self1 ->
  counts_grew_by self sts self'.
Proof.
  intros Hg Hrec Htbl.
  destruct (record_all_stored sts self Hg) as (tbl & Hrec' & Hg' & Hst).
  rewrite Hrec in Hrec'. injection Hrec' as ->. simpl in Htbl.
  split; [by rewrite Htbl|]. intros st.
  exists (stored (hashtable self) (_Gethash st)).
  rewrite !GetCount_eq by (done || by rewrite Htbl).
  by rewrite Htbl, Hst.
Qed.

(** whenever [train] returns a loss, it has recorded the state of every
    sampled transition exactly once: the count of any state has grown by
    the number of sampled transitions whose state has its fingerprint, and
    the table is still the 15 x 15 grid.  And [train] does draw and return a
    loss, whatever the draw, when the buffer holds at least [batch_size]
    transitions that it can process. *)
Theorem train_records_sampled_states self :
  grid15 (hashtable self) ->
  (forall (loss : val) (self' : DQN),
      outcome (train self) (Ok (Some loss), self') ->
      exists (idx : list nat) (mb : list transition),
        length idx = batch_size self
        /\ NoDup idx
        /\ Forall2 (fun j t => replay_buffer self !! j = Some t) idx mb
        /\ counts_grew_by self (map t_state mb) self')
  /\ ((batch_size self <= length (replay_buffer self))%nat ->
      Forall (trainable self) (replay_buffer self) ->
      exists cont,
        train self = Sample (length (replay_buffer self)) (batch_size self) cont
        /\ forall idx : list nat,
            length idx = batch_size self ->
            NoDup idx ->
            Forall (fun i => i < length (replay_buffer self))%nat idx ->
            exists (mb : list transition) (loss : val) (self' : DQN),
              Forall2 (fun j t => replay_buffer self !! j = Some t) idx mb
              /\ cont idx = Ret (Ok (Some loss), self')
              /\ counts_grew_by self (map t_state mb) self').
Proof.
  intros Hg. split.
  - intros loss self'. unfold train.
    destruct (length (replay_buffer self) <? batch_size self)%nat; intros Hout.
    + inversion Hout.
    + inversion Hout as [|n k cont idx a Hlen Hnd Hrange Hcont|]; subst.
      inversion Hcont as [a Heq| |]; subst. clear Hout Hcont.
      match goal with H : sbind _ _ _ = _ |- _ => rename H into Heq end.
      exists idx.
      unfold sbind, sret in Heq.
      destruct (train_minibatch idx self) as [[loss1|e] s1] eqn:Htm; [|done].
      injection Heq as <- <-.
      unfold train_minibatch, sbind, gets, lift, sret in Htm.
      destruct (take_indices (replay_buffer self) idx) as [mb|e] eqn:Hmb; [|done].
      exists mb. apply take_indices_Forall2 in Hmb.
      split; [done|]. split; [done|]. split; [done|].
      destruct (train_loop _ _ _ _ _ _ _ _ _) as [[target|e] self1] eqn:Hloop; [|done].
      apply train_loop_ok_records in Hloop.
      rewrite drop_0, take_ge in Hloop.
      2:{ rewrite length_map, <- (Forall2_length _ _ _ Hmb). lia. }
      destruct (delete_all _ _) as [[[]|e] self2] eqn:Hdel; [|done].
      apply delete_all_frame in Hdel as [b ->].
      injection Htm as _ <-.
      by eapply record_all_counts.
  - intros Hsize Hwf. unfold train.
    destruct (Nat.ltb_spec (length (replay_buffer self)) (batch_size self)); [lia|].
    eexists. split; [reflexivity|].
    intros idx Hlen Hnd Hrange. simpl.
    destruct (train_minibatch_eq self idx Hg Hlen Hnd Hrange Hwf)
      as (mb & rows & tbl' & Hsel & _ & Hrec & Heq).
    exists mb. unfold sbind. rewrite Heq. simpl.
    eexists _, _. split; [done|]. split; [reflexivity|].
    by eapply record_all_counts.
Qed.

End RecordProofs.

(** ** Distinct boards have distinct texts *)
Section DecodeProofs.
Local Open Scope string_scope.
Local Arguments append : simpl nomatch.

Lemma read_text_app (s1 s2 : string) (r : reader) :
  read_text (s1 ++ s2) r = read_text s1 (read_text s2 r).
Proof. induction s1 as [|c s1 IH]; simpl; [done|]. by rewrite IH. Qed.

Lemma read_uint (d : Decimal.uint) (rows : state) (row : list Z) (tok : string) :
  read_text (NilEmpty.string_of_uint d) (rows, row, tok)
  = (rows, row, NilEmpty.string_of_uint d ++ tok).
Proof. induction d; simpl; [done|..]; by rewrite IHd. Qed.

Lemma read_str_int (x : Z) (rows : state) (row : list Z) :
  read_text (Numpy.str_int x) (rows, row, "") = (rows, row, Numpy.str_int x).
Proof.
  unfold Numpy.str_int. destruct (Z.to_int x) as [d|d]; simpl.
  - destruct d; try done; simpl; by rewrite read_uint, append_empty_r.
  - destruct d; try done; simpl; by rewrite read_uint, append_empty_r.
Qed.

Lemma str_int_nonempty (x : Z) : Numpy.str_int x <> "".
Proof.
  unfold Numpy.str_int. destruct (Z.to_int x) as [d|d]; simpl; [|done].
  by destruct d.
Qed.

(** the text of a number reads back as the number *)
Lemma int_value_str_int (x : Z) : int_value (Numpy.str_int x) = x.
Proof.
  unfold int_value, Numpy.str_int.
  rewrite <- (DecimalZ.of_to x) at 2.
  destruct (Z.to_int x) as [d|d].
  - destruct d; try (by rewrite NilZero.isi).
    by rewrite NilZero.isi_posnil.
  - destruct d; try (by rewrite NilZero.isi).
    by rewrite NilZero.isi_negnil.
Qed.

Lemma close_cell_str_int (x : Z) (rows : state) (row : list Z) :
  close_cell (rows, row, Numpy.str_int x) = (rows, x :: row, "").
Proof.
  pose proof (str_int_nonempty x) as Hne.
  pose proof (int_value_str_int x) as Hv.
  unfold close_cell. destruct (Numpy.str_int x); [done|]. by rewrite Hv.
Qed.

Lemma close_cell_twice (r : reader) : close_cell (close_cell r) = close_cell r.
Proof. destruct r as [[rows row] [|c tok]]; done. Qed.

Lemma read_blanks (n : nat) (r : reader) :
  close_cell (read_text (string_of_list_ascii (replicate n " "%char)) r)
  = close_cell r.
Proof.
  induction n as [|n IH]; simpl; [done|].
  change (read_char " " ?x) with (close_cell x). by rewrite close_cell_twice.
Qed.

Lemma read_rjust (w : nat) (x : Z) (rows : state) (row : list Z) :
  close_cell (read_text (Numpy.rjust w (Numpy.str_int x)) (rows, row, ""))
  = (rows, x :: row, "").
Proof.
  unfold Numpy.rjust. rewrite read_text_app, read_str_int, read_blanks.
  apply close_cell_str_int.
Qed.

Lemma read_cells (w : nat) (cells : list Z) (rows : state) :
  close_cell
    (read_text (String.concat " " (map (fun x => Numpy.rjust w (Numpy.str_int x)) cells))
               (rows, [], ""))
  = (rows, cells, "").
Proof.
  induction cells as [|x cells IH]; [done|].
  destruct cells as [|y cells]; [apply read_rjust|].
  change (String.concat " " (map ?f (x :: y :: cells)))
    with (f x ++ " " ++ String.concat " " (map f (y :: cells))).
  rewrite !read_text_app.
  change (read_text " " ?r) with (close_cell r).
  rewrite IH. apply read_rjust.
Qed.

Lemma close_cell_rows (r : reader) : (close_cell r).1.1 = r.1.1.
Proof. by destruct r as [[rows row] [|c tok]]. Qed.

Lemma read_str_row (row : list Z) (rows : state) :
  read_text (Numpy.str_row row) (rows, [], "") = (row :: rows, [], "").
Proof.
  unfold Numpy.str_row. rewrite !read_text_app.
  change (read_text "]" (rows, [], "")) with (rows, @nil Z, "").
  pose proof (read_cells (Numpy.int_width row) row rows) as Hc.
  set (r := read_text _ (rows, [], "")) in *.
  change (read_text "[" r) with ((close_cell r).1.2 :: r.1.1, @nil Z, "").
  by rewrite <- (close_cell_rows r), Hc.
Qed.

Lemma read_rows (st rows : state) :
  read_text (fold_right String.append "" (map Numpy.str_row st)) (rows, [], "")
  = ((st ++ rows)%list, [], "").
Proof.
  induction st as [|row st IH]; [done|].
  cbn [map fold_right]. by rewrite read_text_app, IH, read_str_row.
Qed.

(** for states whose rows numpy prints on one line, the text that
    [_Gethash] digests can be read back into the state, so two such states
    with the same text are the same state: two of these boards share a
    fingerprint, and with it a visit count, only when MD5 collides on their
    texts *)
Theorem combined_string_injective (st : state) :
  Forall Numpy.one_line st ->
  decode (combined_string st) = st
  /\ forall st' : state,
      Forall Numpy.one_line st' ->
      combined_string st = combined_string st' -> st = st'.
Proof.
  intros _.
  assert (Hdec : forall s : state, decode (combined_string s) = s).
  { intros s. unfold decode, combined_string.
    rewrite concat_empty_sep, read_rows. simpl. apply app_nil_r. }
  split; [apply Hdec|].
  intros st' _ Heq. by rewrite <- (Hdec st), <- (Hdec st'), Heq.
Qed.

End DecodeProofs.

(** ** The further properties on the small agents *)
Section MoreWitnesses.
#[local] Existing Instance Demo.arith.

Ltac demo_grid := split; [reflexivity | repeat constructor].
Ltac demo_trainable :=
  repeat constructor; simpl; try lia; try done; repeat constructor; simpl; lia.
Ltac demo_outcome idx :=
  rewrite <- surjective_pairing;
  apply (outcome_sample _ _ _ idx);
  [reflexivity
  |apply (bool_decide_unpack _); vm_compute; exact I
  |repeat constructor; simpl; lia
  |apply outcome_ret].

Lemma flush_round_trip_witness :
  (@flush Q TableNet Demo.filled).1 = Ok (replay_buffer Demo.filled)
  /\ ((0 < batch_size Demo.filled)%nat ->
      train (@flush Q TableNet Demo.filled).2
      = Ret (Ok None, (@flush Q TableNet Demo.filled).2))
  /\ flush (insert_all [Demo.step 0 0 false; Demo.step 250 1 true]
                       (@flush Q TableNet Demo.filled).2).2
     = (Ok [Demo.step 0 0 false; Demo.step 250 1 true],
        (@flush Q TableNet Demo.filled).2).
Proof.
  apply (flush_round_trip [Demo.step 0 0 false; Demo.step 250 1 true] Demo.filled).
  simpl. lia.
Defined.

Lemma train_keeps_target_model_witness :
  let out := (run loss <- @train_minibatch Q Demo.arith TableNet [2; 0]%nat;
              sret (Some loss)) Demo.filled in
  target_model out.2 = target_model Demo.filled
  /\ gamma out.2 = gamma Demo.filled
  /\ batch_size out.2 = batch_size Demo.filled
  /\ maxBufferSize out.2 = maxBufferSize Demo.filled
  /\ action_size out.2 = action_size Demo.filled.
Proof.
  intros out.
  apply (train_keeps_target_model Demo.filled out.1 out.2).
  demo_outcome [2; 0]%nat.
Defined.


Lemma train_records_sampled_states_witness :
  (forall (loss : Q) (self' : DQN),
      outcome (train Demo.filled) (Ok (Some loss), self') ->
      exists (idx : list nat) (mb : list transition),
        length idx = batch_size Demo.filled
        /\ NoDup idx
        /\ Forall2 (fun j t => replay_buffer Demo.filled !! j = Some t) idx mb
        /\ counts_grew_by Demo.filled (map t_state mb) self')
  /\ (exists cont,
        train Demo.filled
        = Sample (length (replay_buffer Demo.filled)) (batch_size Demo.filled) cont
        /\ forall idx : list nat,
            length idx = batch_size Demo.filled ->
            NoDup idx ->
            Forall (fun i => i < length (replay_buffer Demo.filled))%nat idx ->
            exists (mb : list transition) (loss : Q) (self' : DQN),
              Forall2 (fun j t => replay_buffer Demo.filled !! j = Some t) idx mb
              /\ cont idx = Ret (Ok (Some loss), self')
              /\ counts_grew_by Demo.filled (map t_state mb) self').
Proof.
  destruct (train_records_sampled_states Demo.filled) as [Hret Hdraw].
  - demo_grid.
  - split; [exact Hret|]. apply Hdraw.
    + simpl. lia.
    + demo_trainable.
Defined.

Lemma train_keeps_well_formed_witness :
  let out := (run loss <- @train_minibatch Q Demo.arith Demo.UniformNet [1; 0]%nat;
              sret (Some loss)) Demo.uniform_agent in
  (exists o, out.1 = Ok o) /\ well_formed out.2 /\ shaped out.2.
Proof.
  intros out.
  apply (train_keeps_well_formed Demo.uniform_agent out.1 out.2).
  - intros w st t. reflexivity.
  - split; [demo_grid|].
    repeat constructor; simpl; try lia; try done; repeat constructor; simpl; lia.
  - demo_outcome [1; 0]%nat.
Defined.

Lemma other_methods_keep_well_formed_witness :
  well_formed (@InsertBuffer Q TableNet (Demo.step 0 0 false) Demo.filled).2
  /\ well_formed (@flush Q TableNet Demo.filled).2
  /\ well_formed (@update_target_model Q TableNet Demo.filled).2.
Proof.
  apply (other_methods_keep_well_formed Demo.filled (Demo.step 0 0 false)).
  - split; [demo_grid|].
    repeat constructor; simpl; try lia; try done; repeat constructor; simpl; lia.
  - repeat constructor; simpl; try lia; try done; repeat constructor; simpl; lia.
Defined.

Lemma BehaviorPolicy_explores_before_training_witness :
  exists self,
    insert_all [Demo.step 7 2 false] (@init Q TableNet Demo.net 3 2 2 (99 # 100)%Q)
    = (Ok tt, self)
    /\ @BehaviorPolicy Q Demo.arith TableNet (fun _ => Demo.board) Demo.board 1%Z
                       [2; 0]%nat self
       = Choice [2; 0]%nat (fun a => Ret (Ok a, self)).
Proof.
  apply (BehaviorPolicy_explores_before_training (Network0 := TableNet) Demo.net 3 2 2 (99 # 100)%Q [Demo.step 7 2 false]
           (fun _ => Demo.board) Demo.board 1%Z [2; 0]%nat).
  - discriminate.
  - repeat constructor; simpl; lia.
Defined.

Lemma EstimatePolicy_increasing_witness :
  exists (k a : nat) (v : Q),
    @EstimatePolicy Q Demo.arith TableNet Demo.board 1%Z [0; 2]%nat Demo.agent
    = (Ok a, Demo.agent)
    /\ [0; 2]%nat !! k = Some a
    /\ @forward Q TableNet (target_model Demo.agent) Demo.board 1%Z !! a = Some v
    /\ (forall b x, b ∈ [0; 2]%nat ->
                    @forward Q TableNet (target_model Demo.agent) Demo.board 1%Z !! b
                    = Some x ->
                    vlt v x = false)
    /\ (forall j b x, (j < k)%nat -> [0; 2]%nat !! j = Some b ->
                      @forward Q TableNet (target_model Demo.agent) Demo.board 1%Z !! b
                      = Some x ->
                      vlt x v = true).
Proof.
  apply (EstimatePolicy_increasing (Network0 := TableNet) (ArithOrder0 := Demo_order) Demo.board 1%Z [0; 2]%nat Demo.agent).
  - discriminate.
  - repeat constructor; lia.
  - repeat constructor; simpl; lia.
Defined.

Lemma train_never_lowers_counts_witness :
  let out := (run loss <- @train_minibatch Q Demo.arith TableNet [2; 0]%nat;
              sret (Some loss)) Demo.filled in
  grid15 (hashtable out.2)
  /\ forall st : state,
      exists n0 n1 : nat,
        GetCount st Demo.filled = (Ok n0, Demo.filled)
        /\ GetCount st out.2 = (Ok n1, out.2)
        /\ (n0 <= n1)%nat.
Proof.
  intros out.
  apply (train_never_lowers_counts Demo.filled out.1 out.2).
  - demo_grid.
  - demo_outcome [2; 0]%nat.
Defined.

Lemma policies_reject_bad_actions_witness :
  @EstimatePolicy Q Demo.arith TableNet Demo.board 1%Z [0; 5]%nat Demo.agent
  = (Raise IndexError, Demo.agent)
  /\ @BehaviorPolicy Q Demo.arith TableNet (fun _ => Demo.board) Demo.board 1%Z
                     [0; 5]%nat Demo.agent
     = Ret (Raise IndexError, Demo.agent).
Proof.
  apply (policies_reject_bad_actions (Network0 := TableNet) (fun _ => Demo.board) Demo.board 1%Z [0; 5]%nat Demo.agent).
  apply Exists_cons_tl, Exists_cons_hd. simpl. lia.
Defined.

Ltac demo_one_line := repeat constructor; vm_compute; lia.

Lemma Gethash_row_texts_witness :
  _Gethash Demo.board = MD5.hexdigest (bracketed_rows Demo.board)
  /\ strip_layout (bracketed_rows Demo.board) = cell_serialization Demo.board
  /\ (Demo.board <> [] -> bracketed_rows Demo.board <> cell_serialization Demo.board).
Proof. apply (Gethash_row_texts Demo.board). demo_one_line. Defined.

Lemma combined_string_injective_witness :
  decode (combined_string Demo.board) = Demo.board
  /\ forall st' : state,
      Forall Numpy.one_line st' ->
      combined_string Demo.board = combined_string st' -> Demo.board = st'.
Proof. apply (combined_string_injective Demo.board). demo_one_line. Defined.

End MoreWitnesses.
